(** * Bugdown: a shallow embedding of [zephyr/lib/bugdown/__init__.py]

    The module customises Python-Markdown for chat messages: a hanging-list
    preprocessor, an unordered-list block matcher that only accepts [*],
    the [LinkPattern] / [AutoLink] inline patterns with their URL sanitizer,
    the [extendMarkdown] wiring and the [convert] entry point.

    Python text is modelled as [string]: a character is a code point in
    U+0000..U+00FF (an [ascii] holds eight bits).  The regular expressions of
    the module are run by a small backtracking matcher ([Regex]) that follows
    the semantics of Python 2's [re] (ordered alternation, greedy and lazy
    repetition, atomic lookahead, [re.UNICODE] classes). *)

From Stdlib Require Import String Ascii List Arith Bool ZArith Lia.
Import ListNotations.
Open Scope string_scope.

(** ** Python 2 character classes under [re.UNICODE], on U+0000..U+00FF *)
Module PyChar.
Local Open Scope nat_scope.

Definition code (c : ascii) : nat := nat_of_ascii c.

Definition between (lo hi n : nat) : bool := (lo <=? n) && (n <=? hi).

(** [\s]: [Py_UNICODE_ISSPACE] *)
Definition is_space (c : ascii) : bool :=
  let n := code c in
  between 9 13 n || between 28 32 n || (n =? 133) || (n =? 160).

(** [Py_UNICODE_ISALNUM] on Latin-1 code points *)
Definition is_alnum (c : ascii) : bool :=
  let n := code c in
  between 48 57 n || between 65 90 n || between 97 122 n
  || (n =? 170) || (n =? 178) || (n =? 179) || (n =? 181) || (n =? 185)
  || (n =? 186) || between 188 190 n || between 192 214 n
  || between 216 246 n || between 248 255 n.

(** [\w]: alphanumeric or underscore *)
Definition is_word (c : ascii) : bool := is_alnum c || (code c =? 95).

Definition is_char (a : ascii) (c : ascii) : bool := Ascii.eqb c a.

End PyChar.

(** ** A backtracking matcher with Python [re] semantics *)
Module Regex.
Import PyChar.
Local Open Scope nat_scope.

Inductive regex : Type :=
| RClass (p : ascii -> bool)          (* one character of a class *)
| RCat (r1 r2 : regex)
| RAlt (r1 r2 : regex)                 (* [r1|r2], left first *)
| RStar (greedy : bool) (r : regex)    (* [r*] or [r*?] *)
| RGroup (n : nat) (r : regex)         (* capturing group number [n] *)
| RBol (multiline : bool)              (* [^] *)
| REol (multiline : bool)              (* [$] *)
| REndZ                                (* [\Z] *)
| RWordB                               (* [\b] *)
| RLook (r : regex)                    (* [(?=r)] *)
| REps.

(** captures: most recent first, as (group, (start, end)) *)
Definition caps := list (nat * (nat * nat)).

(** the matcher's position: index, previous character, rest of the input *)
Definition cont := nat -> option ascii -> list ascii -> caps -> option caps.

Definition word_at (c : option ascii) : bool :=
  match c with Some c => is_word c | None => false end.

Definition head_opt (s : list ascii) : option ascii :=
  match s with c :: _ => Some c | [] => None end.

(** One repetition of a star must consume input, as in [sre]. Iterations are
    bounded by [S (length s)], which is never reached. *)
Fixpoint mt (r : regex) (i : nat) (pv : option ascii) (s : list ascii)
         (g : caps) (k : cont) {struct r} : option caps :=
  match r with
  | RClass p =>
      match s with
      | c :: s' => if p c then k (S i) (Some c) s' g else None
      | [] => None
      end
  | RCat r1 r2 => mt r1 i pv s g (fun i' pv' s' g' => mt r2 i' pv' s' g' k)
  | RAlt r1 r2 =>
      match mt r1 i pv s g k with
      | Some x => Some x
      | None => mt r2 i pv s g k
      end
  | RStar greedy r1 =>
      (fix loop (n i : nat) (pv : option ascii) (s : list ascii) (g : caps)
           {struct n} : option caps :=
         match n with
         | 0 => k i pv s g
         | S n' =>
             if greedy then
               match mt r1 i pv s g
                       (fun i' pv' s' g' =>
                          if i <? i' then loop n' i' pv' s' g' else None) with
               | Some x => Some x
               | None => k i pv s g
               end
             else
               match k i pv s g with
               | Some x => Some x
               | None =>
                   mt r1 i pv s g
                     (fun i' pv' s' g' =>
                        if i <? i' then loop n' i' pv' s' g' else None)
               end
         end) (S (length s)) i pv s g
  | RGroup n r1 =>
      mt r1 i pv s g (fun i' pv' s' g' => k i' pv' s' ((n, (i, i')) :: g'))
  | RBol ml =>
      if (i =? 0) || (ml && match pv with Some c => is_char "010" c | None => false end)
      then k i pv s g else None
  | REol ml =>
      match s with
      | [] => k i pv s g
      | c :: s' =>
          if is_char "010" c && (ml || match s' with [] => true | _ => false end)
          then k i pv s g else None
      end
  | REndZ => match s with [] => k i pv s g | _ => None end
  | RWordB =>
      (* [SRE_AT_UNI_BOUNDARY]: never at the start of an empty string *)
      if negb ((i =? 0) && match s with [] => true | _ => false end)
         && xorb (word_at pv) (word_at (head_opt s))
      then k i pv s g else None
  | RLook r1 =>
      match mt r1 i pv s g (fun _ _ _ g' => Some g') with
      | Some g' => k i pv s g'
      | None => None
      end
  | REps => k i pv s g
  end.

Definition done : cont := fun _ _ _ g => Some g.

(** the loop of [RStar] in [mt], named so that proofs can unfold it one
    iteration at a time (lemma [mt_star]) *)
Definition star_loop (greedy : bool) (r1 : regex) (k : cont) :=
  fix loop (n i : nat) (pv : option ascii) (s : list ascii) (g : caps)
      {struct n} : option caps :=
    match n with
    | 0 => k i pv s g
    | S n' =>
        if greedy then
          match mt r1 i pv s g
                  (fun i' pv' s' g' =>
                     if i <? i' then loop n' i' pv' s' g' else None) with
          | Some x => Some x
          | None => k i pv s g
          end
        else
          match k i pv s g with
          | Some x => Some x
          | None =>
              mt r1 i pv s g
                (fun i' pv' s' g' =>
                   if i <? i' then loop n' i' pv' s' g' else None)
          end
    end.

(** [re.match]: anchored at the start of the input *)
Definition re_match (r : regex) (s : string) : option caps :=
  mt r 0 None (list_ascii_of_string s) [] done.

Definition re_matches (r : regex) (s : string) : bool :=
  match re_match r s with Some _ => true | None => false end.

Fixpoint lookup_group (n : nat) (g : caps) : option (nat * nat) :=
  match g with
  | [] => None
  | (m, span) :: g' => if m =? n then Some span else lookup_group n g'
  end.

(** [m.group(n)], [None] when the group did not take part *)
Definition group (s : string) (g : caps) (n : nat) : option string :=
  match lookup_group n g with
  | Some (a, b) => Some (substring a (b - a) s)
  | None => None
  end.

(** derived forms *)
Definition chr (a : ascii) : regex := RClass (is_char a).
Fixpoint lit (s : list ascii) : regex :=
  match s with [] => REps | c :: s' => RCat (chr c) (lit s') end.
Definition opt (r : regex) : regex := RAlt r REps.
Definition plus (greedy : bool) (r : regex) : regex := RCat r (RStar greedy r).
(** [r{0,n}], greedy *)
Fixpoint upto (n : nat) (r : regex) : regex :=
  match n with 0 => REps | S n' => RAlt (RCat r (upto n' r)) REps end.
Fixpoint cats (rs : list regex) : regex :=
  match rs with [] => REps | [r] => r | r :: rs' => RCat r (cats rs') end.

(** [.] without and with [re.DOTALL] *)
Definition any_nonl : regex := RClass (fun c => negb (is_char "010" c)).
Definition any_all : regex := RClass (fun _ => true).

End Regex.

(** ** The module's regular expressions *)
Module Patterns.
Import PyChar Regex.

Definition sp : regex := chr " ".

(** the source text of [UListProcessor.RE] and [LI_RE] *)
Definition ulist_RE_source : string := "^[ ]{0,3}[*][ ]+(.*)".

(** [UListProcessor.RE = re.compile(ulist_RE_source)] *)
Definition ulist_RE : regex :=
  cats [RBol false; upto 3 sp; chr "*"; plus true sp; RGroup 1 (RStar true any_nonl)].

(** [BugdownUListPreprocessor.LI_RE], the same pattern with [re.MULTILINE] *)
Definition LI_RE : regex :=
  cats [RBol true; upto 3 sp; chr "*"; plus true sp; RGroup 1 (RStar true any_nonl)].

(** the source text of [link_regex] *)
Definition link_regex_source : string := "\b(?P<url>https?://[^\s]+?)(?=[^\w/]*(\s|\Z))".

(** [link_regex], with the
    url group numbered as it is once wrapped by [Pattern] *)
Definition link_regex : regex :=
  cats [RWordB;
        RGroup 2 (cats [lit (list_ascii_of_string "http"); opt (chr "s");
                        lit (list_ascii_of_string "://");
                        plus false (RClass (fun c => negb (is_space c)))]);
        RLook (RCat (RStar true (RClass (fun c => negb (is_word c || is_char "/" c))))
                    (RGroup 3 (RAlt (RClass is_space) REndZ)))].

Definition pattern_wrap_source : string := "^(.*?)%s(.*?)$".

(** [markdown.inlinepatterns.Pattern.__init__]:
    [re.compile(pattern_wrap_source % pattern, re.DOTALL | re.UNICODE)]; the
    pattern's own groups are shifted by one and the tail is group [last]. *)
Definition pattern_compile (pat : regex) (last : nat) : regex :=
  cats [RBol false; RGroup 1 (RStar false any_all); pat;
        RGroup last (RStar false any_all); REol false].

Definition autolink_re : regex := pattern_compile link_regex 4.

(** the source text of the [Gravatar] pattern *)
Definition gravatar_regex_source : string := "!gravatar\((?P<email>[^)]*)\)".

(** the [Gravatar] pattern, with the email group numbered as it is once
    wrapped by [Pattern] *)
Definition gravatar_regex : regex :=
  cats [lit (list_ascii_of_string "!gravatar("%string);
        RGroup 2 (RStar true (RClass (fun c => negb (is_char ")" c))));
        chr ")"].

Definition gravatar_re : regex := pattern_compile gravatar_regex 3.

(** [match.group('email')] of the gravatar pattern on a text *)
Definition gravatar_email (text : string) : option string :=
  match re_match gravatar_re text with
  | Some g => group text g 2
  | None => None
  end.

(** [match.group('url')] of the autolink pattern on a text *)
Definition autolink_url (text : string) : option string :=
  match re_match autolink_re text with
  | Some g => group text g 2
  | None => None
  end.

End Patterns.

(** ** Python values: exceptions and string methods *)
Module Py.
Local Open Scope nat_scope.

Inductive exn : Type :=
| ValueError
| KeyError (key : string)
| TimeoutError
| OtherError (name : string).

(** a call either returns or raises *)
Inductive result (A : Type) : Type :=
| Ok (a : A)
| Exc (e : exn).
Arguments Ok {A} a.
Arguments Exc {A} e.

(** [s.find(c)] for one character, [None] standing for [-1] *)
Fixpoint find (c : ascii) (s : string) : option nat :=
  match s with
  | EmptyString => None
  | String a s' =>
      if Ascii.eqb a c then Some 0
      else match find c s' with Some n => Some (S n) | None => None end
  end.

(** [c in s] *)
Definition contains (c : ascii) (s : string) : bool :=
  match find c s with Some _ => true | None => false end.

(** [s[:n]] and [s[n:]] *)
Definition take (n : nat) (s : string) : string := substring 0 n s.
Definition drop (n : nat) (s : string) : string := substring n (String.length s - n) s.

(** [s.find(c, start)] *)
Definition find_from (c : ascii) (start : nat) (s : string) : option nat :=
  match find c (drop start s) with Some n => Some (start + n) | None => None end.

(** [s.rfind(c)] *)
Fixpoint rfind (c : ascii) (s : string) : option nat :=
  match s with
  | EmptyString => None
  | String a s' =>
      match rfind c s' with
      | Some n => Some (S n)
      | None => if Ascii.eqb a c then Some 0 else None
      end
  end.

(** [s.split(c, 1)] when [c in s] *)
Definition split1 (c : ascii) (s : string) : string * string :=
  match find c s with
  | Some i => (take i s, drop (S i) s)
  | None => (s, EmptyString)
  end.

(** [s.replace(' ', '%20')] *)
Fixpoint replace_space (s : string) : string :=
  match s with
  | EmptyString => EmptyString
  | String a s' =>
      if Ascii.eqb a " " then "%20" ++ replace_space s'
      else String a (replace_space s')
  end.

(** [s.lower()] on ASCII letters *)
Definition lower_char (a : ascii) : ascii :=
  let n := nat_of_ascii a in
  if (65 <=? n) && (n <=? 90) then ascii_of_nat (n + 32) else a.

Fixpoint lower (s : string) : string :=
  match s with
  | EmptyString => EmptyString
  | String a s' => String (lower_char a) (lower s')
  end.

Fixpoint all_chars (p : ascii -> bool) (s : string) : bool :=
  match s with
  | EmptyString => true
  | String a s' => p a && all_chars p s'
  end.

(** [x in xs] for a list of strings *)
Definition mem (x : string) (xs : list string) : bool :=
  existsb (String.eqb x) xs.

(** [s.strip()] with no argument on a unicode string (the markdown
    library hands its patterns unicode text): it removes the characters
    [Py_UNICODE_ISSPACE] accepts, [is_space] *)
Fixpoint lstrip (s : string) : string :=
  match s with
  | EmptyString => EmptyString
  | String a s' => if PyChar.is_space a then lstrip s' else s
  end.

Definition rev_string (s : string) : string :=
  string_of_list_ascii (rev (list_ascii_of_string s)).

Definition strip (s : string) : string := rev_string (lstrip (rev_string (lstrip s))).

(** [s[1:-1]] *)
Definition inner (s : string) : string := substring 1 (String.length s - 2) s.

End Py.

(** ** Python 2.7's [urlparse] module (the parts [sanitize_url] uses)

    [urlsplit] as in 2.7.18 without the result cache and without
    [_checknetloc], which only inspects non-ASCII network locations. *)
Module UrlParse.
Import Py.
Local Open Scope nat_scope.

Record SplitResult : Type := {
  sr_scheme : string; sr_netloc : string; sr_path : string;
  sr_query : string; sr_fragment : string }.

Record ParseResult : Type := {
  scheme : string; netloc : string; path : string; params : string;
  query : string; fragment : string }.

Definition scheme_chars : string :=
  "abcdefghijklmnopqrstuvwxyzABCDEFGHIJKLMNOPQRSTUVWXYZ0123456789+-.".

Definition uses_netloc : list string :=
  ["ftp"; "http"; "gopher"; "nntp"; "telnet"; "imap"; "wais"; "file"; "mms";
   "https"; "shttp"; "snews"; "prospero"; "rtsp"; "rtspu"; "rsync"; "";
   "svn"; "svn+ssh"; "sftp"; "nfs"; "git"; "git+ssh"].

Definition uses_params : list string :=
  ["ftp"; "hdl"; "prospero"; "http"; "imap"; "https"; "shttp"; "rtsp";
   "rtspu"; "sip"; "sips"; "mms"; ""; "sftp"; "tel"].

Definition min_opt (d : nat) (o : option nat) : nat :=
  match o with Some w => Nat.min d w | None => d end.

(** [_splitnetloc(url, start)] *)
Definition splitnetloc (url : string) (start : nat) : string * string :=
  let delim := String.length url in
  let delim := min_opt delim (find_from "/" start url) in
  let delim := min_opt delim (find_from "?" start url) in
  let delim := min_opt delim (find_from "#" start url) in
  (substring start (delim - start) url, drop delim url).

Definition bad_ipv6 (netloc : string) : bool :=
  (contains "[" netloc && negb (contains "]" netloc))
  || (contains "]" netloc && negb (contains "[" netloc)).

(** the part of [urlsplit] after the scheme has been decided *)
Definition urlsplit_rest (scheme url : string) : result SplitResult :=
  let '(netloc, url, bad) :=
    if String.prefix "//" url then
      let '(n, u) := splitnetloc url 2 in (n, u, bad_ipv6 n)
    else (EmptyString, url, false) in
  if bad then Exc ValueError else
  let '(url, fragment) := if contains "#" url then split1 "#" url else (url, EmptyString) in
  let '(url, query) := if contains "?" url then split1 "?" url else (url, EmptyString) in
  Ok {| sr_scheme := scheme; sr_netloc := netloc; sr_path := url;
        sr_query := query; sr_fragment := fragment |}.

Definition is_digit (a : ascii) : bool :=
  let n := nat_of_ascii a in (48 <=? n) && (n <=? 57).

(** [urlsplit(url)] *)
Definition urlsplit (url : string) : result SplitResult :=
  match find ":" url with
  | Some i =>
      if 0 <? i then
        if String.eqb (take i url) "http" then
          urlsplit_rest (lower (take i url)) (drop (S i) url)
        else if all_chars (fun c => Py.contains c scheme_chars) (take i url) then
          let rest := drop (S i) url in
          if String.eqb rest "" || negb (all_chars is_digit rest) then
            urlsplit_rest (lower (take i url)) rest
          else urlsplit_rest "" url
        else urlsplit_rest "" url
      else urlsplit_rest "" url
  | None => urlsplit_rest "" url
  end.

(** [_splitparams(url)], called when [';' in url] *)
Definition splitparams (url : string) : string * string :=
  let i := if contains "/" url then
             match rfind "/" url with
             | Some j => find_from ";" j url
             | None => None
             end
           else find ";" url in
  match i with
  | Some i => (take i url, drop (S i) url)
  | None => (url, EmptyString)
  end.

(** [urlparse(url)] *)
Definition urlparse (url : string) : result ParseResult :=
  match urlsplit url with
  | Exc e => Exc e
  | Ok r =>
      let '(p, prm) :=
        if mem (sr_scheme r) uses_params && contains ";" (sr_path r)
        then splitparams (sr_path r) else (sr_path r, EmptyString) in
      Ok {| scheme := sr_scheme r; netloc := sr_netloc r; path := p;
            params := prm; query := sr_query r; fragment := sr_fragment r |}
  end.

Definition nonempty (s : string) : bool := negb (String.eqb s "").

(** [urlunsplit((scheme, netloc, url, query, fragment))] *)
Definition urlunsplit (scheme netloc url query fragment : string) : string :=
  let url :=
    if nonempty netloc
       || (nonempty scheme && mem scheme uses_netloc
           && negb (String.eqb (take 2 url) "//"))
    then
      let url := if nonempty url && negb (String.eqb (take 1 url) "/")
                 then "/" ++ url else url in
      "//" ++ netloc ++ url
    else url in
  let url := if nonempty scheme then scheme ++ ":" ++ url else url in
  let url := if nonempty query then url ++ "?" ++ query else url in
  if nonempty fragment then url ++ "#" ++ fragment else url.

(** [urlunparse(parts)] *)
Definition urlunparse (p : ParseResult) : string :=
  let url := if nonempty (params p) then path p ++ ";" ++ params p else path p in
  urlunsplit (scheme p) (netloc p) url (query p) (fragment p).

End UrlParse.

(** ** The inline patterns of [bugdown] *)
Module Bugdown.
Import Py UrlParse.

(** [markdown.util.etree.Element]: a tag, a text and attributes; an
    attribute value may be Python's [None] *)
Record Element : Type := {
  tag : string;
  text : option string;
  attrib : list (string * option string) }.

Definition Element_new (t : string) : Element :=
  {| tag := t; text := None; attrib := [] |}.

Fixpoint attr_set (k : string) (v : option string)
         (l : list (string * option string)) : list (string * option string) :=
  match l with
  | [] => [(k, v)]
  | (k', v') :: l' => if String.eqb k k' then (k, v) :: l' else (k', v') :: attr_set k v l'
  end.

Fixpoint attr_get (k : string) (l : list (string * option string)) : option string :=
  match l with
  | [] => None
  | (k', v) :: l' => if String.eqb k k' then v else attr_get k l'
  end.

(** [el.set(k, v)], [el.get(k)] and [el.text = t] *)
Definition set (e : Element) (k : string) (v : option string) : Element :=
  {| tag := tag e; text := text e; attrib := attr_set k v (attrib e) |}.
Definition get (e : Element) (k : string) : option string := attr_get k (attrib e).
Definition set_text (e : Element) (t : option string) : Element :=
  {| tag := tag e; text := t; attrib := attrib e |}.

(** [fixup_link] *)
Definition fixup_link (link : Element) : Element :=
  let link := set link "target" (Some "_blank") in
  set link "title" (get link "href").

(** [AutoLink.handleMatch], given [match.group('url')] *)
Definition AutoLink_handleMatch (url : string) : Element :=
  let a := Element_new "a" in
  let a := set a "href" (Some url) in
  let a := set_text a (Some url) in
  fixup_link a.

(** [markdown.inlinepatterns]: a pattern that matches a text hands its
    match to [handleMatch]; the element built for the autolink pattern *)
Definition AutoLink_apply (text : string) : option Element :=
  match Patterns.autolink_url text with
  | Some url => Some (AutoLink_handleMatch url)
  | None => None
  end.

Section Gravatar.
(** [zephyr.lib.avatar.gravatar_hash] *)
Variable gravatar_hash : string -> string.

(** [Gravatar.handleMatch], given [match.group('email')] *)
Definition Gravatar_handleMatch (email : string) : Element :=
  let img := Element_new "img" in
  let img := set img "class" (Some "message_body_gravatar img-rounded") in
  set img "src" (Some ("https://secure.gravatar.com/avatar/" ++ gravatar_hash email
                       ++ "?d=identicon&s=30")).

(** the element built for the gravatar pattern on a text *)
Definition Gravatar_apply (text : string) : option Element :=
  match Patterns.gravatar_email text with
  | Some email => Some (Gravatar_handleMatch email)
  | None => None
  end.

End Gravatar.

(** [LinkPattern.sanitize_url]; [fuel] bounds the number of nested calls,
    [None] when it runs out *)
Fixpoint sanitize_url_fuel (fuel : nat) (url : string) : option string :=
  match fuel with
  | O => None
  | S fuel' =>
      match urlparse (replace_space url) with
      | Exc _ => Some ""          (* [except ValueError], the only exception raised *)
      | Ok parts =>
          if String.eqb (scheme parts) "" then
            sanitize_url_fuel fuel' ("http://" ++ url)
          else
            let locless_schemes := [""; "mailto"; "news"] in
            if String.eqb (netloc parts) "" && negb (mem (scheme parts) locless_schemes)
            then Some ""
            else if existsb (Py.contains ":")
                      [path parts; params parts; query parts; fragment parts]
            then Some ""
            else Some (urlunparse parts)
      end
  end.

(** Python recursion: one nested call is all [sanitize_url] ever makes
    (theorem [sanitize_url_terminates]), so two levels compute it. *)
Definition sanitize_url (url : string) : string :=
  match sanitize_url_fuel 2 url with Some r => r | None => "" end.

Section Link.
(** [markdown.inlinepatterns.Pattern.unescape], which reads the inline stash *)
Variable unescape : string -> string.

(** [LinkPattern.handleMatch], given [m.group(2)] and [m.group(9)] *)
Definition LinkPattern_handleMatch (text href : option string) : Element :=
  let el := Element_new "a" in
  let el := set_text el text in
  let el :=
    match href with
    | Some h =>
        if nonempty h then
          let h := if String.prefix "<" h then inner h else h in
          set el "href" (Some (sanitize_url (unescape (strip h))))
        else set el "href" (Some "")
    | None => set el "href" (Some "")
    end in
  fixup_link el.

End Link.

End Bugdown.

(** ** [BugdownUListPreprocessor] *)
Module Hanging.
Import PyChar Py.
Local Open Scope nat_scope.

(** [LI_RE.match(line)] *)
Definition li_match (line : string) : bool := Regex.re_matches Patterns.LI_RE line.

Definition lang_char (c : ascii) : bool :=
  is_alnum c && (nat_of_ascii c <? 128) || is_char "_" c || is_char "+" c || is_char "-" c.

Fixpoint take_run (c : ascii) (s : string) : nat :=
  match s with
  | String a s' => if Ascii.eqb a c then S (take_run c s') else 0
  | EmptyString => 0
  end.

(** Modelled from the spec: [FENCE_RE] of [zephyr.lib.bugdown.fenced_code]
    (not part of this file).  A fence line is a run of three or more
    identical fence characters (backtick or tilde), optionally followed by a
    language tag; [Some run] is [m.group('fence')]. *)
Definition FENCE_RE_match (line : string) : option string :=
  match line with
  | String c _ =>
      if is_char "`" c || is_char "~" c then
        let n := take_run c line in
        if (3 <=? n) && all_chars lang_char (drop n line)
        then Some (take n line) else None
      else None
  | EmptyString => None
  end.

(** Python's [list.insert(idx, x)] for [0 <= idx] *)
Definition list_insert {A : Type} (idx : nat) (x : A) (l : list A) : list A :=
  (firstn idx l ++ x :: skipn idx l)%list.

Definition isSome {A : Type} (o : option A) : bool :=
  match o with Some _ => true | None => false end.

Section Run.
Variable fence_match : string -> option string.
Variable li : string -> bool.

(** truth value of [fence], a string or [None] *)
Definition truthy (f : option string) : bool :=
  match f with Some s => UrlParse.nonempty s | None => false end.

Definition opt_eqb (a b : option string) : bool :=
  match a, b with
  | Some x, Some y => String.eqb x y
  | None, None => true
  | _, _ => false
  end.

(** the body of the [for i in xrange(len(lines) - 1)] loop, [n] iterations
    left *)
Fixpoint run_loop (n i : nat) (lines : list string) (fence : option string)
         (copy : list string) (inserts : nat) : list string :=
  match n with
  | O => copy
  | S n' =>
      let line := nth i lines "" in
      let m := fence_match line in
      let fence :=
        if negb (truthy fence) && isSome m then m
        else if truthy fence && isSome m && opt_eqb fence m then None
        else fence in
      if negb (truthy fence) && UrlParse.nonempty line
         && li (nth (S i) lines "") && negb (li line)
      then run_loop n' (S i) lines fence (list_insert (i + inserts + 1) "" copy) (S inserts)
      else run_loop n' (S i) lines fence copy inserts
  end.

(** [BugdownUListPreprocessor.run] *)
Definition run (lines : list string) : list string :=
  run_loop (List.length lines - 1) 0 lines None lines 0.

(** The preprocessor as the specification describes it: the fence state
    opens on a fence line when none is open and closes on a fence line with
    the same token; after each line [i] an empty line is inserted when line
    [i] is non-empty and not a bullet, line [i+1] is a bullet, and no fence
    is open. *)
Definition fence_step (st : option string) (line : string) : option string :=
  match st, fence_match line with
  | None, Some tok => Some tok
  | Some open, Some tok => if String.eqb open tok then None else Some open
  | st, None => st
  end.

Fixpoint hanging_spec_from (st : option string) (lines : list string) : list string :=
  match lines with
  | [] => []
  | l :: rest =>
      let st' := fence_step st l in
      l :: (match rest with
            | l2 :: _ =>
                if negb (isSome st') && UrlParse.nonempty l && negb (li l) && li l2
                then [""] else []
            | [] => []
            end) ++ hanging_spec_from st' rest
  end.

Definition hanging_spec (lines : list string) : list string := hanging_spec_from None lines.

End Run.

(** the preprocessor with the module's [FENCE_RE] and [LI_RE] *)
Definition BugdownUListPreprocessor_run (lines : list string) : list string :=
  run FENCE_RE_match li_match lines.

Definition BugdownUListPreprocessor_spec (lines : list string) : list string :=
  hanging_spec FENCE_RE_match li_match lines.

End Hanging.

(** ** [markdown.odict.OrderedDict] and [Bugdown.extendMarkdown] *)
Module Registry.
Import Py.
Local Open Scope nat_scope.

(** an ordered dict seen through its [keyOrder] *)
Definition odict := list string.

Fixpoint remove_first (k : string) (l : odict) : odict :=
  match l with
  | [] => []
  | x :: l' => if String.eqb x k then l' else x :: remove_first k l'
  end.

Fixpoint index_of (k : string) (l : odict) : option nat :=
  match l with
  | [] => None
  | x :: l' =>
      if String.eqb x k then Some 0
      else match index_of k l' with Some n => Some (S n) | None => None end
  end.

(** [del d[k]] *)
Definition del (d : odict) (k : string) : result odict :=
  if mem k d then Ok (remove_first k d) else Exc (KeyError k).

(** [keyOrder.index(k)] *)
Definition index (d : odict) (k : string) : result nat :=
  match index_of k d with Some i => Ok i | None => Exc ValueError end.

(** [OrderedDict.index_for_location] *)
Definition index_for_location (d : odict) (location : string) : result (option nat) :=
  if String.eqb location "_begin" then Ok (Some 0)
  else if String.eqb location "_end" then Ok None
  else if String.prefix "<" location || String.prefix ">" location then
    match index d (drop 1 location) with
    | Exc e => Exc e
    | Ok i =>
        if String.prefix ">" location then
          if List.length d <=? i then Ok None else Ok (Some (S i))
        else Ok (Some i)
    end
  else Exc ValueError.

(** [OrderedDict.insert] *)
Definition insert (d : odict) (index : nat) (key : string) : odict :=
  let '(d, index) :=
    match index_of key d with
    | Some n => (remove_first key d, if n <? index then index - 1 else index)
    | None => (d, index)
    end in
  (firstn index d ++ key :: skipn index d)%list.

(** [OrderedDict.add] *)
Definition add (d : odict) (key location : string) : result odict :=
  match index_for_location d location with
  | Exc e => Exc e
  | Ok (Some i) => Ok (insert d i key)
  | Ok None => Ok (if mem key d then d else (d ++ [key])%list)
  end.

Definition bind {A B : Type} (r : result A) (f : A -> result B) : result B :=
  match r with Ok a => f a | Exc e => Exc e end.

Fixpoint del_all (d : odict) (ks : list string) : result odict :=
  match ks with
  | [] => Ok d
  | k :: ks' => bind (del d k) (fun d => del_all d ks')
  end.

(** the block-processor part of [Bugdown.extendMarkdown] *)
Definition extend_blockprocessors (d : odict) : result odict :=
  bind (del_all d ["hashheader"; "setextheader"; "olist"; "ulist"])
       (fun d => add d "ulist" ">hr").

(** [markdown.blockprocessors.build_block_parser]: the default table *)
Definition default_blockprocessors : odict :=
  ["empty"; "indent"; "code"; "hashheader"; "setextheader"; "hr"; "olist";
   "ulist"; "quote"; "paragraph"].

(** [BlockParser.parseBlocks]: the first processor, in table order, whose
    [test] accepts the block handles it *)
Definition dispatch (test : string -> bool) (d : odict) : option string :=
  List.find test d.

(** [a] comes before [b] in the table *)
Definition before (a b : string) (d : odict) : bool :=
  match index_of a d, index_of b d with
  | Some i, Some j => i <? j
  | _, _ => false
  end.

(** the three tables [extendMarkdown] edits, through their key orders *)
Record MdTables : Type := {
  preprocessors : odict; inlinePatterns : odict; blockprocessors : odict }.

(** [Bugdown.extendMarkdown]: its statements in order; the first one that
    raises aborts the rest *)
Definition extendMarkdown (md : MdTables) : result MdTables :=
  bind (del (preprocessors md) "reference") (fun pre =>
  bind (del_all (inlinePatterns md)
          ["image_link"; "image_reference"; "automail"; "autolink"; "link";
           "reference"; "short_reference"; "escape"]) (fun inl =>
  bind (extend_blockprocessors (blockprocessors md)) (fun blk =>
  bind (add inl "gravatar" "_begin") (fun inl =>
  bind (add inl "link" ">backtick") (fun inl =>
  bind (add inl "autolink" ">link") (fun inl =>
  bind (add pre "hanging_ulists" "_begin") (fun pre =>
  Ok {| preprocessors := pre; inlinePatterns := inl; blockprocessors := blk |}))))))).

(** the block table once [extendMarkdown] has run on the default one *)
Definition wired_blockprocessors : odict :=
  ["empty"; "indent"; "code"; "hr"; "ulist"; "quote"; "paragraph"].

End Registry.

(** ** [convert] *)
Module Convert.
Import Py.

(** unicode text as a list of code points *)
Definition ustr := list Z.

Definition ustr_of (s : string) : ustr :=
  map (fun a => Z.of_nat (nat_of_ascii a)) (list_ascii_of_string s).

Inductive level : Type := ERROR.

Record LogRecord : Type := { lvl : level; msg : ustr }.

Definition fallback_html : string :=
  "<p>[Humbug note: Sorry, we could not understand the formatting of your message]</p>".

Section Convert.
(** the shared [_md_engine]: its state, [reset()] and [convert()], which
    returns or raises and takes some number of seconds *)
Variable EngineState : Type.
Variable engine_reset : EngineState -> EngineState.
Variable engine_convert : EngineState -> ustr -> result ustr * nat * EngineState.
(** [traceback.format_exc()], [repr] and the Unicode database's [isalnum] *)
Variable format_exc : exn -> ustr.
Variable py_repr : ustr -> ustr.
Variable unicode_isalnum : Z -> bool.

(** [\w] under [re.UNICODE] *)
Definition is_word_u (c : Z) : bool := unicode_isalnum c || (c =? 95)%Z.

(** [_privacy_re.sub('x', md)] *)
Definition privacy_sub (md : ustr) : ustr :=
  map (fun c => if is_word_u c then 120%Z else c) md.

(** [_sanitize_for_log] *)
Definition _sanitize_for_log (md : ustr) : ustr := py_repr (privacy_sub md).

(** Modelled from the spec: [zephyr.lib.timeout.timeout] (not part of this
    file).  The call's outcome is returned when it finishes within the
    budget; past the budget the call is abandoned and the timeout raises. *)
Definition timeout (budget : nat) (outcome : result ustr) (spent : nat) : result ustr :=
  if Nat.ltb budget spent then Exc TimeoutError else outcome.

Record World : Type := { engine : EngineState; log : list LogRecord }.

Definition log_message (e : exn) (md : ustr) : ustr :=
  (ustr_of "Exception in Markdown parser: " ++ format_exc e
   ++ ustr_of "Input (sanitized) was: " ++ _sanitize_for_log md)%list.

(** [convert(md)]: reset, then [try: ... except: ...] around the timed
    conversion *)
Definition convert (md : ustr) (w : World) : result ustr * World :=
  let st := engine_reset (engine w) in
  let '(outcome, spent, st') := engine_convert st md in
  match timeout 5 outcome spent with
  | Ok html => (Ok html, {| engine := st'; log := log w |})
  | Exc e =>
      (Ok (ustr_of fallback_html),
       {| engine := st';
          log := (log w ++ [{| lvl := ERROR; msg := log_message e md |}])%list |})
  end.

End Convert.

(** a concrete engine that raises *)
Definition failing_engine (_ : unit) (_ : ustr) : result ustr * nat * unit :=
  (Exc (OtherError "RuntimeError"), 0, tt).

Definition start_world : World unit := {| engine := tt; log := [] |}.

Definition claimed_fallback : string :=
  "<p>[Note: Sorry, we could not understand the formatting of your message]</p>".

End Convert.

(** * Properties *)

(** ** Attributes of the anchors *)
Module AnchorFacts.
Import Py UrlParse Bugdown.

Lemma attr_get_set_eq : forall k v l, attr_get k (attr_set k v l) = v.
Proof.
  induction l as [|[k' v'] l IH]; simpl.
  - rewrite String.eqb_refl; reflexivity.
  - destruct (String.eqb k k') eqn:E; simpl.
    + rewrite String.eqb_refl; reflexivity.
    + rewrite E; exact IH.
Qed.

Lemma attr_get_set_neq :
  forall k k' v l, k <> k' -> attr_get k (attr_set k' v l) = attr_get k l.
Proof.
  intros k k' v l Hne; induction l as [|[k'' v''] l IH]; simpl.
  - destruct (String.eqb_spec k k'); [congruence | reflexivity].
  - destruct (String.eqb_spec k' k'') as [->|Hk]; simpl.
    + destruct (String.eqb_spec k k''); [congruence | reflexivity].
    + destruct (String.eqb k k''); [reflexivity | exact IH].
Qed.

Lemma fixup_link_target : forall e, get (fixup_link e) "target" = Some "_blank".
Proof.
  intro e; unfold fixup_link, get, set; simpl.
  rewrite attr_get_set_neq by discriminate.
  apply attr_get_set_eq.
Qed.

Lemma fixup_link_href : forall e, get (fixup_link e) "href" = get e "href".
Proof.
  intro e; unfold fixup_link, get, set; simpl.
  rewrite !attr_get_set_neq by discriminate; reflexivity.
Qed.

Lemma fixup_link_title : forall e, get (fixup_link e) "title" = get e "href".
Proof.
  intro e; unfold fixup_link, get, set; simpl.
  rewrite attr_get_set_eq, attr_get_set_neq by discriminate; reflexivity.
Qed.

Lemma set_text_get : forall e t k, get (set_text e t) k = get e k.
Proof. reflexivity. Qed.

Lemma get_set_eq : forall e k v, get (set e k v) k = v.
Proof. intros; apply attr_get_set_eq. Qed.

(** C5: every anchor built by [LinkPattern] and [AutoLink] has
    [target="_blank"] and a [title] equal to its own [href]; when the link
    captured no href (or an empty one) the href is the empty string. *)
Theorem anchors_target_blank_title_href :
  forall (unescape : string -> string) (text href : option string) (url : string),
    get (LinkPattern_handleMatch unescape text href) "target" = Some "_blank"
    /\ get (LinkPattern_handleMatch unescape text href) "title"
       = get (LinkPattern_handleMatch unescape text href) "href"
    /\ get (AutoLink_handleMatch url) "target" = Some "_blank"
    /\ get (AutoLink_handleMatch url) "title" = get (AutoLink_handleMatch url) "href"
    /\ get (LinkPattern_handleMatch unescape text None) "href" = Some ""
    /\ get (LinkPattern_handleMatch unescape text (Some "")) "href" = Some "".
Proof.
  intros unescape text href url.
  unfold LinkPattern_handleMatch, AutoLink_handleMatch.
  repeat split;
    try apply fixup_link_target;
    try (rewrite fixup_link_title, fixup_link_href; reflexivity);
    rewrite fixup_link_href; apply get_set_eq.
Qed.

(** C3 (counterexample): on ["see http://x.com/a:b"] the autolink captures
    ["http://x.com/a:b"] and the anchor's href is that text, while
    [sanitize_url] rejects it. *)
Lemma autolink_href_not_sanitized :
  Patterns.autolink_url "see http://x.com/a:b" = Some "http://x.com/a:b"
  /\ sanitize_url "http://x.com/a:b" = ""
  /\ get (AutoLink_handleMatch "http://x.com/a:b") "href"
     <> Some (sanitize_url "http://x.com/a:b").
Proof.
  split; [vm_compute; reflexivity|].
  split; [vm_compute; reflexivity|].
  vm_compute; discriminate.
Qed.

(** C3 (amended): the autolink anchor's href and text are both the literal
    matched URL, not passed through [sanitize_url]; [fixup_link] is applied
    as for the Link pattern. *)
Theorem autolink_href_is_literal_url :
  forall url : string,
    get (AutoLink_handleMatch url) "href" = Some url
    /\ text (AutoLink_handleMatch url) = Some url
    /\ get (AutoLink_handleMatch url) "target" = Some "_blank"
    /\ get (AutoLink_handleMatch url) "title" = Some url.
Proof.
  intro url; unfold AutoLink_handleMatch.
  rewrite fixup_link_href, fixup_link_title, fixup_link_target.
  rewrite set_text_get, get_set_eq.
  repeat split.
Qed.

End AnchorFacts.

(** ** The URL sanitizer on the specification's examples *)
Module SanitizerFacts.
Import Py UrlParse Bugdown.

(** C4: ["javascript:alert(1)"] is rejected, ["example.com/a"] has no scheme
    and is re-sanitized as ["http://example.com/a"], ["http://x.com/a:b"] is
    rejected for the colon in its path, and ["mailto:user@example.com"] is
    accepted although its network location is empty. *)
Theorem sanitize_url_examples :
  sanitize_url "javascript:alert(1)" = ""
  /\ (exists p, urlparse "example.com/a" = Ok p /\ scheme p = "")
  /\ sanitize_url "example.com/a" = sanitize_url "http://example.com/a"
  /\ sanitize_url "example.com/a" = "http://example.com/a"
  /\ sanitize_url "http://x.com/a:b" = ""
  /\ (exists p, urlparse "mailto:user@example.com" = Ok p /\ netloc p = "")
  /\ sanitize_url "mailto:user@example.com" = "mailto:user@example.com"
  /\ sanitize_url "mailto:user@example.com" <> "".
Proof.
  repeat split; try (vm_compute; reflexivity);
    try (eexists; split; vm_compute; reflexivity).
  vm_compute; discriminate.
Qed.

End SanitizerFacts.

(** ** The autolink boundary *)
Module AutolinkFacts.
Import Patterns.

(** C8: the autolink stops before trailing punctuation and keeps inner
    slashes. *)
Theorem autolink_boundary_examples :
  autolink_url "see http://x.com/page." = Some "http://x.com/page"
  /\ autolink_url "see http://x.com/a/b" = Some "http://x.com/a/b".
Proof. split; vm_compute; reflexivity. Qed.

End AutolinkFacts.

(** ** Where the list matcher is registered *)
Module RegistryFacts.
Import Py Registry.

(** C9 (counterexample): on Python-Markdown's default block table,
    [add('ulist', ..., '>hr')] places the list matcher after [hr], not
    before it. *)
Lemma ulist_not_before_hr :
  extend_blockprocessors default_blockprocessors = Ok wired_blockprocessors
  /\ before "ulist" "hr" wired_blockprocessors = false
  /\ before "hr" "ulist" wired_blockprocessors = true.
Proof. repeat split; vm_compute; reflexivity. Qed.

(** C9 (amended): after the wiring, the custom list matcher comes
    immediately after horizontal-rule detection, so a block that the
    horizontal-rule test accepts is never handed to the list matcher; when
    none of the three processors before it ([empty], [indent], [code])
    accepts the block, horizontal-rule detection handles it. *)
Theorem ulist_registered_after_hr :
  forall test : string -> bool,
    test "hr" = true ->
    extend_blockprocessors default_blockprocessors = Ok wired_blockprocessors
    /\ (exists pre post, wired_blockprocessors = (pre ++ ["hr"; "ulist"] ++ post)%list)
    /\ dispatch test wired_blockprocessors <> Some "ulist"
    /\ (test "empty" = false -> test "indent" = false -> test "code" = false ->
        dispatch test wired_blockprocessors = Some "hr").
Proof.
  intros test Hhr.
  split; [vm_compute; reflexivity|].
  split; [exists ["empty"; "indent"; "code"], ["quote"; "paragraph"]; reflexivity|].
  unfold dispatch, wired_blockprocessors; simpl.
  split.
  - destruct (test "empty"); [discriminate|].
    destruct (test "indent"); [discriminate|].
    destruct (test "code"); [discriminate|].
    rewrite Hhr; discriminate.
  - intros He Hi Hc; rewrite He, Hi, Hc, Hhr; reflexivity.
Qed.

End RegistryFacts.

(** ** [convert] never raises, and its failure path *)
Module ConvertFacts.
Import Py Convert.

Section Facts.
Variable EngineState : Type.
Variable engine_reset : EngineState -> EngineState.
Variable engine_convert : EngineState -> ustr -> result ustr * nat * EngineState.
Variable format_exc : exn -> ustr.
Variable py_repr : ustr -> ustr.
Variable unicode_isalnum : Z -> bool.

(** C1: whatever the engine does (returns, raises, or runs past the time
    budget), [convert] returns a string: the engine's HTML when it finished
    in time, the fallback fragment otherwise; no exception escapes. *)
Theorem convert_always_returns :
  forall (md : ustr) (w : World EngineState),
    exists html : ustr,
      fst (convert EngineState engine_reset engine_convert format_exc py_repr
                   unicode_isalnum md w) = Ok html
      /\ (html = ustr_of fallback_html
          \/ exists spent st',
               engine_convert (engine_reset (engine EngineState w)) md
               = (Ok html, spent, st') /\ spent <= 5).
Proof.
  intros md w; unfold convert.
  destruct (engine_convert (engine_reset (engine EngineState w)) md)
    as [[outcome spent] st'] eqn:Hrun.
  unfold timeout.
  destruct (Nat.ltb 5 spent) eqn:Hlt.
  - exists (ustr_of fallback_html); split; [reflexivity | left; reflexivity].
  - destruct outcome as [html | e].
    + exists html; split; [reflexivity|].
      right; exists spent, st'; split; [reflexivity|].
      apply Nat.ltb_ge; exact Hlt.
    + exists (ustr_of fallback_html); split; [reflexivity | left; reflexivity].
Qed.

Lemma privacy_sub_length : forall md, length (privacy_sub unicode_isalnum md) = length md.
Proof. intro md; apply length_map. Qed.

Lemma privacy_sub_nth :
  forall md i c, nth_error md i = Some c ->
    nth_error (privacy_sub unicode_isalnum md) i
    = Some (if is_word_u unicode_isalnum c then 120%Z else c).
Proof.
  intros md i c H; unfold privacy_sub; rewrite nth_error_map, H; reflexivity.
Qed.

(** C2 (amended): when the timed conversion raises or runs out of time,
    [convert] returns the literal
    ["<p>[Humbug note: Sorry, we could not understand the formatting of your message]</p>"]
    and appends exactly one ERROR record, whose input part is [repr] of the
    input with every [\w] character (each alphanumeric one included)
    replaced by ['x']. *)
Theorem convert_failure_fallback_and_log :
  forall (md : ustr) (w : World EngineState) outcome spent st' e,
    engine_convert (engine_reset (engine EngineState w)) md = (outcome, spent, st') ->
    timeout 5 outcome spent = Exc e ->
    convert EngineState engine_reset engine_convert format_exc py_repr
            unicode_isalnum md w
    = (Ok (ustr_of fallback_html),
       {| engine := st';
          log := (log EngineState w
                  ++ [{| lvl := ERROR;
                         msg := ustr_of "Exception in Markdown parser: " ++ format_exc e
                                ++ ustr_of "Input (sanitized) was: "
                                ++ py_repr (privacy_sub unicode_isalnum md) |}])%list |})
    /\ length (privacy_sub unicode_isalnum md) = length md
    /\ (forall i c, nth_error md i = Some c -> unicode_isalnum c = true ->
          nth_error (privacy_sub unicode_isalnum md) i = Some 120%Z)
    /\ (forall i c, nth_error md i = Some c -> is_word_u unicode_isalnum c = false ->
          nth_error (privacy_sub unicode_isalnum md) i = Some c).
Proof.
  intros md w outcome spent st' e Hrun Hto.
  split; [|split; [apply privacy_sub_length|split]].
  - unfold convert; rewrite Hrun, Hto; reflexivity.
  - intros i c Hi Ha; rewrite (privacy_sub_nth md i c Hi).
    unfold is_word_u; rewrite Ha; reflexivity.
  - intros i c Hi Hw; rewrite (privacy_sub_nth md i c Hi), Hw; reflexivity.
Qed.

End Facts.

(** C2 (counterexample): with an engine that raises, [convert] returns the
    "Humbug note" fragment, not the fragment the specification quotes. *)
Lemma convert_fallback_is_humbug_note :
  fst (convert unit (fun s => s) failing_engine (fun _ => []) (fun s => s)
               (fun _ => false) (ustr_of "hi") start_world)
  <> Ok (ustr_of claimed_fallback).
Proof. vm_compute; discriminate. Qed.

End ConvertFacts.

(** ** Termination of [sanitize_url] *)
Module SanitizeTermination.
Import Py UrlParse Bugdown.

Lemma urlsplit_rest_scheme :
  forall sch u, match urlsplit_rest sch u with
                | Ok r => sr_scheme r = sch
                | Exc _ => True
                end.
Proof.
  intros sch u; unfold urlsplit_rest.
  destruct (String.prefix "//" u);
    [destruct (splitnetloc u 2) as [n v]; destruct (bad_ipv6 n)|];
    try exact I;
    repeat match goal with
           | |- context [if ?b then _ else _] => destruct b
           | |- context [let '(_, _) := ?p in _] => destruct p
           end; reflexivity.
Qed.

Lemma urlsplit_http : forall u, exists v, urlsplit ("http://" ++ u) = urlsplit_rest "http" v.
Proof. intro u; eexists; reflexivity. Qed.

Lemma urlparse_http_scheme :
  forall u, match urlparse ("http://" ++ u) with
            | Ok p => scheme p = "http"
            | Exc _ => True
            end.
Proof.
  intro u; unfold urlparse.
  destruct (urlsplit_http u) as [v ->].
  pose proof (urlsplit_rest_scheme "http" v) as H.
  destruct (urlsplit_rest "http" v) as [r|e]; [|exact I].
  destruct (mem (sr_scheme r) uses_params && Py.contains ";" (sr_path r));
    [destruct (splitparams (sr_path r))|]; exact H.
Qed.

Lemma replace_space_http : forall u, replace_space ("http://" ++ u) = "http://" ++ replace_space u.
Proof. reflexivity. Qed.

Lemma sanitize_url_fuel_S :
  forall f url, sanitize_url_fuel (S f) url =
    match urlparse (replace_space url) with
    | Exc _ => Some ""
    | Ok parts =>
        if String.eqb (scheme parts) "" then sanitize_url_fuel f ("http://" ++ url)
        else
          if String.eqb (netloc parts) "" && negb (mem (scheme parts) [""; "mailto"; "news"])
          then Some ""
          else if existsb (Py.contains ":")
                    [path parts; params parts; query parts; fragment parts]
          then Some ""
          else Some (urlunparse parts)
    end.
Proof. reflexivity. Qed.

(** the re-entered call never recurses again *)
Lemma sanitize_url_fuel_http :
  forall u f, sanitize_url_fuel (S f) ("http://" ++ u) = sanitize_url_fuel 1 ("http://" ++ u)
              /\ sanitize_url_fuel 1 ("http://" ++ u) <> None.
Proof.
  intros u f.
  pose proof (urlparse_http_scheme (replace_space u)) as H.
  rewrite <- replace_space_http in H.
  rewrite !sanitize_url_fuel_S.
  destruct (urlparse (replace_space ("http://" ++ u))) as [q|e].
  - rewrite H; simpl.
    destruct (_ && _); [split; [reflexivity | discriminate]|].
    destruct (_ || _); split; try reflexivity; discriminate.
  - split; [reflexivity | discriminate].
Qed.

(** C10: [sanitize_url] terminates: re-parsing ["http://" ++ url] always
    yields the scheme ["http"] (or a parse error), so the scheme-less branch
    recurses at most once and two levels of calls give the result for any
    larger bound. *)
Theorem sanitize_url_terminates :
  forall url : string,
    match urlparse (replace_space ("http://" ++ url)) with
    | Ok p => scheme p = "http"
    | Exc _ => True
    end
    /\ exists r, forall n, sanitize_url_fuel (2 + n) url = Some r.
Proof.
  intro url; split.
  - rewrite replace_space_http; apply urlparse_http_scheme.
  - assert (Hst : forall n, sanitize_url_fuel (2 + n) url = sanitize_url_fuel 2 url
                  /\ sanitize_url_fuel 2 url <> None).
    { intro n; simpl Nat.add; rewrite !(sanitize_url_fuel_S (S _)).
      destruct (urlparse (replace_space url)) as [p|e].
      - destruct (String.eqb (scheme p) "").
        + destruct (sanitize_url_fuel_http url n) as [H1 H2].
          rewrite H1; split; [reflexivity | exact H2].
        + destruct (_ && _); [split; [reflexivity | discriminate]|].
          destruct (existsb _ _); split; try reflexivity; discriminate.
      - split; [reflexivity | discriminate]. }
    destruct (Hst 0) as [_ Hdef].
    destruct (sanitize_url_fuel 2 url) as [r|] eqn:E; [|contradiction].
    exists r; intro n; exact (proj1 (Hst n)).
Qed.

End SanitizeTermination.

(** ** The bullet grammar of the list matcher *)
Module BulletFacts.
Import PyChar Regex Patterns.
Local Open Scope nat_scope.
Local Open Scope list_scope.

Lemma mt_cat : forall r1 r2 i pv s g k,
  mt (RCat r1 r2) i pv s g k = mt r1 i pv s g (fun i' pv' s' g' => mt r2 i' pv' s' g' k).
Proof. reflexivity. Qed.

Lemma mt_class_inv : forall p i pv s g k x,
  mt (RClass p) i pv s g k = Some x ->
  exists c s', s = c :: s' /\ p c = true /\ k (S i) (Some c) s' g = Some x.
Proof.
  intros p i pv [|c s'] g k x H; simpl in H; [discriminate|].
  destruct (p c) eqn:Hp; [|discriminate].
  exists c, s'; auto.
Qed.

Lemma mt_alt_inv : forall r1 r2 i pv s g k x,
  mt (RAlt r1 r2) i pv s g k = Some x ->
  mt r1 i pv s g k = Some x \/ mt r2 i pv s g k = Some x.
Proof.
  intros r1 r2 i pv s g k x H; simpl in H.
  destruct (mt r1 i pv s g k) eqn:E; [left; congruence | right; exact H].
Qed.

Lemma mt_bol_inv : forall ml i pv s g k x,
  mt (RBol ml) i pv s g k = Some x -> k i pv s g = Some x.
Proof.
  intros ml i pv s g k x H; simpl in H.
  destruct (_ || _); [exact H | discriminate].
Qed.

Lemma is_char_true : forall a c, is_char a c = true -> c = a.
Proof. intros a c H; apply Ascii.eqb_eq; exact H. Qed.

(** [[ ]{0,n}] consumes between zero and [n] spaces *)
Lemma upto_sp_inv : forall n i pv s g k x,
  mt (upto n sp) i pv s g k = Some x ->
  exists j pv' s', j <= n /\ s = repeat " "%char j ++ s' /\ k (i + j) pv' s' g = Some x.
Proof.
  induction n as [|n IH]; intros i pv s g k x H.
  - exists 0, pv, s; simpl in H; rewrite Nat.add_0_r; repeat split; auto.
  - apply mt_alt_inv in H as [H|H].
    + rewrite mt_cat in H.
      apply mt_class_inv in H as (c & s1 & -> & Hc & H).
      apply is_char_true in Hc; subst c.
      apply IH in H as (j & pv' & s' & Hj & -> & H).
      exists (S j), pv', s'; split; [lia|]; split; [reflexivity|].
      replace (i + S j) with (S i + j) by lia; exact H.
    + exists 0, pv, s; simpl in H; rewrite Nat.add_0_r; repeat split; auto; lia.
Qed.

Lemma mt_alt_some_l : forall r1 r2 i pv s g k,
  mt r1 i pv s g k <> None -> mt (RAlt r1 r2) i pv s g k <> None.
Proof. intros; simpl; destruct (mt r1 i pv s g k); congruence. Qed.

Lemma mt_alt_some_r : forall r1 r2 i pv s g k,
  mt r2 i pv s g k <> None -> mt (RAlt r1 r2) i pv s g k <> None.
Proof. intros; simpl; destruct (mt r1 i pv s g k); congruence. Qed.

(** a star may always stop where it is *)
Lemma mt_star_stop : forall gr r i pv s g k,
  k i pv s g <> None -> mt (RStar gr r) i pv s g k <> None.
Proof.
  intros gr r i pv s g k Hk; simpl.
  destruct gr.
  - match goal with |- match ?m with _ => _ end <> None => destruct m end; congruence.
  - destruct (k i pv s g); congruence.
Qed.

Lemma upto_sp_some : forall n j s' i pv g k,
  j <= n -> (forall pv', k (i + j) pv' s' g <> None) ->
  mt (upto n sp) i pv (repeat " "%char j ++ s') g k <> None.
Proof.
  induction n as [|n IH]; intros j s' i pv g k Hj Hk.
  - assert (j = 0) by lia; subst j; simpl; rewrite <- (Nat.add_0_r i); apply Hk.
  - destruct j as [|j].
    + apply mt_alt_some_r; simpl; rewrite <- (Nat.add_0_r i); apply Hk.
    + apply mt_alt_some_l; rewrite mt_cat; simpl.
      apply IH; [lia|]; intro pv'; replace (S i + j) with (i + S j) by lia; apply Hk.
Qed.

Lemma mt_class_step : forall p c i pv s g k,
  p c = true -> mt (RClass p) i pv (c :: s) g k = k (S i) (Some c) s g.
Proof. intros p c i pv s g k H; simpl; rewrite H; reflexivity. Qed.

Lemma mt_group : forall n r i pv s g k,
  mt (RGroup n r) i pv s g k = mt r i pv s g (fun i' pv' s' g' => k i' pv' s' ((n, (i, i')) :: g')).
Proof. reflexivity. Qed.

Lemma mt_bol_start : forall ml pv s g k, mt (RBol ml) 0 pv s g k = k 0 pv s g.
Proof. reflexivity. Qed.

(** the part of the pattern after the leading spaces *)
Lemma bullet_rest_some : forall i pv t g,
  mt (RCat (chr "*") (RCat (plus true sp) (RGroup 1 (RStar true any_nonl))))
     i pv ("*"%char :: " "%char :: t) g done <> None.
Proof.
  intros i pv t g; unfold plus, sp, chr.
  rewrite mt_cat, mt_class_step by reflexivity; cbv beta.
  rewrite !mt_cat, mt_class_step by reflexivity; cbv beta.
  apply mt_star_stop; cbv beta.
  rewrite mt_group; apply mt_star_stop; discriminate.
Qed.

(** the pattern starts with a [*] after at most three spaces, followed by a
    space *)
Lemma ulist_RE_inv : forall s x,
  mt ulist_RE 0 None s [] done = Some x ->
  exists k t, k <= 3 /\ s = repeat " "%char k ++ "*"%char :: " "%char :: t.
Proof.
  intros s x H; unfold ulist_RE in H; cbn [cats] in H.
  rewrite mt_cat in H; apply mt_bol_inv in H; cbv beta in H.
  rewrite mt_cat in H; apply upto_sp_inv in H as (j & pv' & s' & Hj & -> & H).
  cbv beta in H; rewrite mt_cat in H.
  apply mt_class_inv in H as (c & s1 & -> & Hc & H); apply is_char_true in Hc; subst c.
  cbv beta in H; unfold plus in H; rewrite !mt_cat in H.
  apply mt_class_inv in H as (c & t & -> & Hc & _); apply is_char_true in Hc; subst c.
  exists j, t; auto.
Qed.

Lemma ulist_RE_some : forall k t, k <= 3 ->
  mt ulist_RE 0 None (repeat " "%char k ++ "*"%char :: " "%char :: t) [] done <> None.
Proof.
  intros k t Hk; unfold ulist_RE; cbn [cats].
  rewrite mt_cat, mt_bol_start; cbv beta; rewrite mt_cat.
  apply upto_sp_some; [exact Hk|]; intro pv'.
  apply bullet_rest_some.
Qed.

(** C7: the custom list matcher accepts exactly the lines made of zero to
    three spaces, a single [*], one or more spaces and then anything; so a
    line starting with ["- "] or ["+ "] is never matched and a line starting
    with ["* "] always is. *)
Theorem ulist_bullet_grammar :
  (forall line : string,
     re_matches ulist_RE line = true <->
     exists k m rest, k <= 3 /\
       list_ascii_of_string line
       = repeat " "%char k ++ "*"%char :: repeat " "%char (S m) ++ rest)
  /\ (forall rest : string,
        re_matches ulist_RE ("- " ++ rest)%string = false
        /\ re_matches ulist_RE ("+ " ++ rest)%string = false
        /\ re_matches ulist_RE ("* " ++ rest)%string = true).
Proof.
  assert (Hiff : forall line : string,
     re_matches ulist_RE line = true <->
     exists k m rest, k <= 3 /\
       list_ascii_of_string line
       = repeat " "%char k ++ "*"%char :: repeat " "%char (S m) ++ rest).
  { intro line; unfold re_matches, re_match; split.
    - destruct (mt ulist_RE 0 None (list_ascii_of_string line) [] done) eqn:E;
        [|discriminate]; intros _.
      apply ulist_RE_inv in E as (k & t & Hk & ->).
      exists k, 0, t; split; [exact Hk | reflexivity].
    - intros (k & m & rest & Hk & ->).
      pose proof (ulist_RE_some k (repeat " "%char m ++ rest) Hk) as H.
      simpl repeat; destruct (mt _ _ _ _ _ _); [reflexivity | congruence]. }
  split; [exact Hiff|].
  intro rest; split; [|split].
  - destruct (re_matches ulist_RE ("- " ++ rest)%string) eqn:E; [|reflexivity].
    apply Hiff in E as (k & m & r & Hk & H).
    destruct k as [|[|[|[|k]]]]; simpl in H; try discriminate; lia.
  - destruct (re_matches ulist_RE ("+ " ++ rest)%string) eqn:E; [|reflexivity].
    apply Hiff in E as (k & m & r & Hk & H).
    destruct k as [|[|[|[|k]]]]; simpl in H; try discriminate; lia.
  - apply Hiff; exists 0, 0, (list_ascii_of_string rest); split; [lia | reflexivity].
Qed.

End BulletFacts.

(** ** The hanging-list preprocessor *)
Module HangingFacts.
Import Py Hanging.
Local Open Scope nat_scope.
Local Open Scope list_scope.

Lemma skipn_nth_cons : forall (l : list string) i d,
  i < List.length l -> skipn i l = nth i l d :: skipn (S i) l.
Proof.
  induction l as [|x l IH]; intros i d H; simpl in H; [lia|].
  destruct i as [|i]; [reflexivity|].
  simpl; apply IH; lia.
Qed.

Lemma skipn_last : forall (l : list string) i d,
  List.length l = S i -> skipn i l = [nth i l d].
Proof.
  intros l i d H; rewrite (skipn_nth_cons l i d) by lia.
  rewrite skipn_all2 by lia; reflexivity.
Qed.

Lemma list_insert_after : forall (Q R : list string) (l x : string),
  list_insert (List.length Q + 1) x (Q ++ l :: R) = Q ++ l :: x :: R.
Proof.
  induction Q as [|q Q IH]; intros R l x; [reflexivity|].
  unfold list_insert in *; simpl; f_equal; apply IH.
Qed.

Section Loop.
Variable fence_match : string -> option string.
Variable li : string -> bool.
Hypothesis fence_nonempty :
  forall l tok, fence_match l = Some tok -> UrlParse.nonempty tok = true.

Definition good_state (st : option string) : Prop :=
  forall tok, st = Some tok -> UrlParse.nonempty tok = true.

Lemma truthy_good : forall st, good_state st -> truthy st = isSome st.
Proof. intros [tok|] H; simpl; [apply (H tok eq_refl) | reflexivity]. Qed.

(** the code's update of [fence] is [fence_step] *)
Lemma fence_update : forall st line, good_state st ->
  (if negb (truthy st) && isSome (fence_match line) then fence_match line
   else if truthy st && isSome (fence_match line) && opt_eqb st (fence_match line)
        then None else st)
  = fence_step fence_match st line
  /\ good_state (fence_step fence_match st line).
Proof.
  intros st line Hg; rewrite truthy_good by exact Hg.
  unfold fence_step.
  destruct st as [o|], (fence_match line) as [tok|] eqn:E; simpl.
  - destruct (String.eqb o tok); split; try reflexivity; try exact Hg; discriminate.
  - split; [reflexivity | exact Hg].
  - split; [reflexivity|]; intros t Ht; injection Ht as <-; exact (fence_nonempty _ _ E).
  - split; [reflexivity | discriminate].
Qed.

Lemma hanging_spec_from_cons2 : forall st l l2 rest,
  hanging_spec_from fence_match li st (l :: l2 :: rest)
  = l :: (if negb (isSome (fence_step fence_match st l)) && UrlParse.nonempty l
             && negb (li l) && li l2 then [""] else [])
      ++ hanging_spec_from fence_match li (fence_step fence_match st l) (l2 :: rest).
Proof. reflexivity. Qed.

Lemma run_loop_spec : forall n i lines st Q inserts,
  S (n + i) = List.length lines ->
  List.length Q = i + inserts ->
  good_state st ->
  run_loop fence_match li n i lines st (Q ++ skipn i lines) inserts
  = Q ++ hanging_spec_from fence_match li st (skipn i lines).
Proof.
  induction n as [|n IH]; intros i lines st Q inserts Hlen HQ Hg.
  - simpl; rewrite (skipn_last lines i "") by lia; reflexivity.
  - rewrite (skipn_nth_cons lines i "") by lia.
    rewrite (skipn_nth_cons lines (S i) "") by lia.
    rewrite hanging_spec_from_cons2.
    rewrite <- (skipn_nth_cons lines (S i) "") by lia.
    cbn [run_loop].
    destruct (fence_update st (nth i lines "") Hg) as [-> Hg'].
    rewrite truthy_good by exact Hg'.
    set (st' := fence_step fence_match st (nth i lines "")) in *.
    destruct (negb (isSome st')) eqn:E1, (UrlParse.nonempty (nth i lines "")) eqn:E2,
             (li (nth (S i) lines "")) eqn:E3, (li (nth i lines "")) eqn:E4;
      cbn [andb negb];
      try (replace (i + inserts + 1) with (List.length Q + 1) by lia;
           rewrite list_insert_after;
           replace (Q ++ nth i lines "" :: "" :: skipn (S i) lines)
             with ((Q ++ [nth i lines ""; ""]) ++ skipn (S i) lines)
             by (rewrite <- app_assoc; reflexivity);
           rewrite (IH (S i) lines st' _ (S inserts)) by
             (try exact Hg'; rewrite ?length_app; simpl; lia);
           rewrite <- app_assoc; reflexivity);
      replace (Q ++ nth i lines "" :: skipn (S i) lines)
        with ((Q ++ [nth i lines ""]) ++ skipn (S i) lines)
        by (rewrite <- app_assoc; reflexivity);
      rewrite (IH (S i) lines st' _ inserts) by
        (try exact Hg'; rewrite ?length_app; simpl; lia);
      rewrite <- app_assoc; reflexivity.
Qed.

Lemma run_is_spec : forall lines,
  run fence_match li lines = hanging_spec fence_match li lines.
Proof.
  intro lines; unfold run, hanging_spec.
  destruct lines as [|l ls]; [reflexivity|].
  apply (run_loop_spec _ 0 (l :: ls) None [] 0); simpl; try lia.
  discriminate.
Qed.

End Loop.

Lemma take_nonempty : forall n c s, UrlParse.nonempty (take (S n) (String c s)) = true.
Proof. reflexivity. Qed.

Lemma FENCE_RE_nonempty : forall l tok,
  FENCE_RE_match l = Some tok -> UrlParse.nonempty tok = true.
Proof.
  intros [|c s] tok H; unfold FENCE_RE_match in H; cbv beta iota zeta in H;
    [discriminate|].
  destruct (_ || _); [|discriminate].
  destruct (_ && _) eqn:E; [|discriminate].
  injection H as <-.
  simpl take_run; rewrite Ascii.eqb_refl.
  apply take_nonempty.
Qed.

(** the spec's output: every original line, in order, each followed by at
    most one inserted empty line *)
Lemma hanging_spec_shape : forall fm li st lines,
  exists flags : list bool,
    List.length flags = List.length lines
    /\ hanging_spec_from fm li st lines
       = concat (map (fun '(l, b) => l :: (if b : bool then [""] else []))
                     (combine lines flags)).
Proof.
  intros fm li st lines; revert st.
  induction lines as [|l rest IH]; intro st; [exists []; split; reflexivity|].
  destruct (IH (fence_step fm st l)) as (flags & Hl & Heq).
  simpl hanging_spec_from.
  set (b := match rest with
            | l2 :: _ =>
                negb (isSome (fence_step fm st l)) && UrlParse.nonempty l
                && negb (li l) && li l2
            | [] => false
            end).
  exists (b :: flags); split; [simpl; lia|].
  simpl; rewrite <- Heq; subst b.
  destruct rest as [|l2 rest']; [reflexivity|].
  destruct (_ && _ && _ && _); reflexivity.
Qed.

Lemma concat_shape_length : forall (lines : list string) flags,
  List.length flags = List.length lines ->
  List.length lines
  <= List.length (concat (map (fun '(l, b) => l :: (if b : bool then [""] else []))
                              (combine lines flags))).
Proof.
  induction lines as [|l ls IH]; intros [|b fs] H; simpl in *; try lia.
  rewrite length_app; simpl.
  specialize (IH fs ltac:(lia)); destruct b; simpl; lia.
Qed.

(** C6: [BugdownUListPreprocessor.run] returns the input lines unchanged and
    in order, with an empty line inserted after line [i] exactly when line
    [i] is non-empty and not a bullet line, line [i+1] is a bullet line, and
    no fence is open once line [i] has been scanned (a fence opens on a
    fence line when none is open and closes on a fence line with the same
    token); the output is never shorter than the input. *)
Theorem hanging_ulist_preprocessor :
  forall lines : list string,
    BugdownUListPreprocessor_run lines = BugdownUListPreprocessor_spec lines
    /\ (exists flags : list bool,
          List.length flags = List.length lines
          /\ BugdownUListPreprocessor_run lines
             = concat (map (fun '(l, b) => l :: (if b : bool then [""] else []))
                           (combine lines flags)))
    /\ List.length lines <= List.length (BugdownUListPreprocessor_run lines).
Proof.
  intro lines.
  assert (Heq : BugdownUListPreprocessor_run lines = BugdownUListPreprocessor_spec lines)
    by (apply run_is_spec, FENCE_RE_nonempty).
  destruct (hanging_spec_shape FENCE_RE_match li_match None lines) as (flags & Hl & Hs).
  rewrite Heq; unfold BugdownUListPreprocessor_spec, hanging_spec.
  split; [reflexivity|].
  split; [exists flags; split; assumption|].
  rewrite Hs; apply concat_shape_length; exact Hl.
Qed.

End HangingFacts.

(** ** [fixup_link] touches only [target] and [title] *)
Module FixupFacts.
Import Py Bugdown AnchorFacts.

(** [fixup_link] keeps the tag and the text; afterwards [title] holds the
    old [href], [target] is ["_blank"], and every other attribute is as
    before. *)
Theorem fixup_link_attributes :
  forall (e : Element) (k : string),
    tag (fixup_link e) = tag e
    /\ text (fixup_link e) = text e
    /\ get (fixup_link e) k
       = if String.eqb k "title" then get e "href"
         else if String.eqb k "target" then Some "_blank"
         else get e k.
Proof.
  intros e k; split; [reflexivity|]; split; [reflexivity|].
  destruct (String.eqb_spec k "title") as [->|Ht].
  - apply fixup_link_title.
  - destruct (String.eqb_spec k "target") as [->|Hg].
    + apply fixup_link_target.
    + unfold fixup_link, get, set; simpl.
      rewrite !attr_get_set_neq by assumption; reflexivity.
Qed.

End FixupFacts.

(** ** What the failure log can reveal, and how the log grows *)
Module LogFacts.
Import Py Convert.

Section Facts.
Variable EngineState : Type.
Variable engine_reset : EngineState -> EngineState.
Variable engine_convert : EngineState -> ustr -> result ustr * nat * EngineState.
Variable format_exc : exn -> ustr.
Variable py_repr : ustr -> ustr.
Variable unicode_isalnum : Z -> bool.

Lemma privacy_sub_mask :
  forall md1 md2,
    Forall2 (fun a b => if is_word_u unicode_isalnum a
                        then is_word_u unicode_isalnum b = true else b = a) md1 md2 ->
    privacy_sub unicode_isalnum md1 = privacy_sub unicode_isalnum md2.
Proof.
  intros md1 md2 H; induction H as [|a b l1 l2 Hab _ IH]; [reflexivity|].
  unfold privacy_sub in *; simpl; rewrite IH; f_equal.
  destruct (is_word_u unicode_isalnum a) eqn:Ea.
  - rewrite Hab; reflexivity.
  - subst b; rewrite Ea; reflexivity.
Qed.

(** [_sanitize_for_log] depends only on where the word characters are:
    two messages that have word characters at the same positions and the
    same other characters give the same log text. *)
Theorem sanitize_for_log_reveals_only_mask :
  forall md1 md2 : ustr,
    Forall2 (fun a b => if is_word_u unicode_isalnum a
                        then is_word_u unicode_isalnum b = true else b = a) md1 md2 ->
    _sanitize_for_log py_repr unicode_isalnum md1
    = _sanitize_for_log py_repr unicode_isalnum md2.
Proof.
  intros md1 md2 H; unfold _sanitize_for_log; f_equal; apply privacy_sub_mask; exact H.
Qed.

(** After [_privacy_re.sub('x', md)] the only word character left in the
    text is ['x'] (code point 120). *)
Theorem privacy_sub_only_x :
  forall md : ustr,
    forallb (fun c => negb (is_word_u unicode_isalnum c) || (c =? 120)%Z)
            (privacy_sub unicode_isalnum md) = true.
Proof.
  induction md as [|c md IH]; [reflexivity|].
  unfold privacy_sub in *; simpl; rewrite IH, andb_true_r.
  destruct (is_word_u unicode_isalnum c) eqn:E.
  - rewrite Z.eqb_refl, orb_true_r; reflexivity.
  - rewrite E; reflexivity.
Qed.

(** [convert] keeps the records already logged and appends at most one,
    an ERROR record, and only when it returns the fallback fragment. *)
Theorem convert_log_appends_at_most_one :
  forall (md : ustr) (w : World EngineState),
    exists new,
      log EngineState (snd (convert EngineState engine_reset engine_convert format_exc
                                    py_repr unicode_isalnum md w))
      = (log EngineState w ++ new)%list
      /\ (new = []
          \/ exists m, new = [{| lvl := ERROR; msg := m |}]
             /\ fst (convert EngineState engine_reset engine_convert format_exc
                             py_repr unicode_isalnum md w)
                = Ok (ustr_of fallback_html)).
Proof.
  intros md w; unfold convert.
  destruct (engine_convert (engine_reset (engine EngineState w)) md)
    as [[outcome spent] st'] eqn:Hrun.
  destruct (timeout 5 outcome spent) as [html|e].
  - exists []; split; [simpl; rewrite app_nil_r; reflexivity | left; reflexivity].
  - eexists; split; [reflexivity|]; right; eexists; split; reflexivity.
Qed.

End Facts.

End LogFacts.

(** ** The preprocessor's output is a fixed point *)
Module PreprocessorFacts.
Import Py Hanging HangingFacts.
Local Open Scope list_scope.

Section Fixed.
Variable fence_match : string -> option string.
Variable li : string -> bool.
Hypothesis fence_empty : fence_match "" = None.
Hypothesis li_empty : li "" = false.

Lemma fence_step_empty : forall st, fence_step fence_match st "" = st.
Proof. intros [o|]; unfold fence_step; rewrite fence_empty; reflexivity. Qed.

Lemma hanging_spec_from_head : forall st l rest,
  exists rest', hanging_spec_from fence_match li st (l :: rest) = l :: rest'.
Proof. intros; eexists; reflexivity. Qed.

Lemma hanging_spec_from_idem : forall lines st,
  hanging_spec_from fence_match li st (hanging_spec_from fence_match li st lines)
  = hanging_spec_from fence_match li st lines.
Proof.
  induction lines as [|l rest IH]; intro st; [reflexivity|].
  destruct rest as [|l2 rest'].
  - reflexivity.
  - rewrite hanging_spec_from_cons2.
    set (st' := fence_step fence_match st l).
    destruct (hanging_spec_from_head st' l2 rest') as [Z HZ].
    destruct (negb (isSome st') && UrlParse.nonempty l && negb (li l) && li l2) eqn:C.
    + cbn [app].
      rewrite hanging_spec_from_cons2, li_empty, andb_false_r.
      fold st'; cbn [app].
      rewrite HZ, hanging_spec_from_cons2, fence_step_empty.
      replace (UrlParse.nonempty "") with false by reflexivity.
      rewrite andb_false_r, !andb_false_l; cbn [app].
      rewrite <- HZ, IH; reflexivity.
    + cbn [app].
      rewrite HZ, hanging_spec_from_cons2; fold st'; rewrite C; cbn [app].
      rewrite <- HZ, IH; reflexivity.
Qed.

Lemma hanging_spec_from_no_bullets : forall lines st,
  (forall l, In l lines -> li l = false) ->
  hanging_spec_from fence_match li st lines = lines.
Proof.
  induction lines as [|l rest IH]; intros st H; [reflexivity|].
  destruct rest as [|l2 rest']; [reflexivity|].
  rewrite hanging_spec_from_cons2, (H l2) by (right; left; reflexivity).
  rewrite andb_false_r; cbn [app].
  rewrite IH; [reflexivity|]; intros x Hx; apply H; right; exact Hx.
Qed.

End Fixed.

(** Running [BugdownUListPreprocessor.run] on its own output changes
    nothing: once the empty lines are in place no further line is inserted
    (for a fence matcher that rejects the empty line and yields non-empty
    tokens, and a bullet matcher that rejects the empty line). *)
Theorem run_idempotent :
  forall (fence_match : string -> option string) (li : string -> bool),
    (forall l tok, fence_match l = Some tok -> UrlParse.nonempty tok = true) ->
    fence_match "" = None ->
    li "" = false ->
    forall lines, run fence_match li (run fence_match li lines) = run fence_match li lines.
Proof.
  intros fm li Hne Hfe Hle lines.
  rewrite !(run_is_spec fm li Hne); unfold hanging_spec.
  apply hanging_spec_from_idem; assumption.
Qed.

(** A list of lines none of which is a bullet line comes back unchanged. *)
Theorem run_no_bullet_unchanged :
  forall (fence_match : string -> option string) (li : string -> bool) lines,
    (forall l tok, fence_match l = Some tok -> UrlParse.nonempty tok = true) ->
    (forall l, In l lines -> li l = false) ->
    run fence_match li lines = lines.
Proof.
  intros fm li lines Hne H.
  rewrite (run_is_spec fm li Hne); unfold hanging_spec.
  apply hanging_spec_from_no_bullets; exact H.
Qed.

End PreprocessorFacts.

(** ** [extendMarkdown] on any tables that hold the keys it deletes *)
Module WiringFacts.
Import Py Registry.
Local Open Scope nat_scope.
Local Open Scope list_scope.

Lemma mem_In : forall k d, mem k d = true <-> In k d.
Proof.
  intros k d; unfold mem; rewrite existsb_exists; split.
  - intros (x & Hx & E); apply String.eqb_eq in E; subst; exact Hx.
  - intro H; exists k; split; [exact H | apply String.eqb_refl].
Qed.

Lemma remove_first_notin : forall k d, ~ In k d -> remove_first k d = d.
Proof.
  induction d as [|x d IH]; intro H; [reflexivity|]; simpl.
  destruct (String.eqb_spec x k) as [->|_]; [exfalso; apply H; left; reflexivity|].
  rewrite IH; [reflexivity|]; intro; apply H; right; assumption.
Qed.

Lemma In_remove_first : forall k x d, In x (remove_first k d) -> In x d.
Proof.
  induction d as [|y d IH]; simpl; [tauto|].
  destruct (String.eqb y k); simpl; [tauto|]; intros [H|H]; [left|right; apply IH]; assumption.
Qed.

Lemma In_remove_first_neq : forall k x d, x <> k -> In x d -> In x (remove_first k d).
Proof.
  induction d as [|y d IH]; simpl; [tauto|]; intros Hne [->|H].
  - destruct (String.eqb_spec x k); [contradiction | left; reflexivity].
  - destruct (String.eqb y k); [exact H | right; apply IH; assumption].
Qed.

Lemma NoDup_remove_first : forall k d, NoDup d -> NoDup (remove_first k d).
Proof.
  induction d as [|y d IH]; simpl; intro H; [constructor|].
  inversion H as [|? ? Hy Hd]; subst.
  destruct (String.eqb y k); [exact Hd|].
  constructor; [intro Hin; apply Hy; eapply In_remove_first; exact Hin | apply IH; exact Hd].
Qed.

Lemma notin_remove_first : forall k d, NoDup d -> ~ In k (remove_first k d).
Proof.
  induction d as [|y d IH]; simpl; intros H; [tauto|].
  inversion H as [|? ? Hy Hd]; subst.
  destruct (String.eqb_spec y k) as [->|Hne]; [exact Hy|].
  intros [E|Hin]; [congruence | exact (IH Hd Hin)].
Qed.

Lemma del_ok : forall d k, In k d -> del d k = Ok (remove_first k d).
Proof. intros d k H; unfold del; apply mem_In in H; rewrite H; reflexivity. Qed.

Lemma del_missing : forall d k, ~ In k d -> del d k = Exc (KeyError k).
Proof.
  intros d k H; unfold del.
  destruct (mem k d) eqn:E; [apply mem_In in E; contradiction | reflexivity].
Qed.

Lemma del_all_ok : forall ks d,
  NoDup d -> NoDup ks -> (forall k, In k ks -> In k d) ->
  exists d', del_all d ks = Ok d' /\ NoDup d'
             /\ (forall x, In x d' <-> In x d /\ ~ In x ks).
Proof.
  induction ks as [|k ks IH]; intros d Hd Hks Hin.
  - exists d; split; [reflexivity|]; split; [exact Hd|]; simpl; tauto.
  - inversion Hks as [|? ? Hk Hks']; subst.
    simpl; rewrite del_ok by (apply Hin; left; reflexivity); simpl.
    destruct (IH (remove_first k d)) as (d' & E & Hd' & Hx).
    + apply NoDup_remove_first; exact Hd.
    + exact Hks'.
    + intros x Hx; apply In_remove_first_neq; [|apply Hin; right; exact Hx].
      intros ->; contradiction.
    + exists d'; split; [exact E|]; split; [exact Hd'|].
      intro x; rewrite Hx; split.
      * intros [H1 H2]; split; [eapply In_remove_first; exact H1|].
        intros [->|H3]; [exact (notin_remove_first x d Hd H1) | contradiction].
      * intros [H1 H2]; split.
        -- apply In_remove_first_neq; [|exact H1]; intros ->; apply H2; left; reflexivity.
        -- intro; apply H2; right; assumption.
Qed.

Lemma index_of_none : forall k d, ~ In k d -> index_of k d = None.
Proof.
  induction d as [|x d IH]; intro H; [reflexivity|]; simpl.
  destruct (String.eqb_spec x k) as [->|_]; [exfalso; apply H; left; reflexivity|].
  rewrite IH; [reflexivity|]; intro; apply H; right; assumption.
Qed.

Lemma index_of_split : forall a pre post,
  ~ In a pre -> index_of a (pre ++ a :: post) = Some (List.length pre).
Proof.
  induction pre as [|x pre IH]; intros post H; simpl.
  - rewrite String.eqb_refl; reflexivity.
  - destruct (String.eqb_spec x a) as [->|_]; [exfalso; apply H; left; reflexivity|].
    rewrite IH; [reflexivity|]; intro; apply H; right; assumption.
Qed.

Lemma split_first : forall (a : string) d, In a d ->
  exists pre post, d = pre ++ a :: post /\ ~ In a pre.
Proof.
  induction d as [|x d IH]; intro H; [destruct H|].
  destruct (String.eqb_spec x a) as [->|Hne].
  - exists [], d; split; [reflexivity | simpl; tauto].
  - destruct H as [->|H]; [contradiction|].
    destruct (IH H) as (pre & post & -> & Hp).
    exists (x :: pre), post; split; [reflexivity|].
    intros [E|E]; [exact (Hne E) | exact (Hp E)].
Qed.

Lemma substring_all : forall s, substring 0 (String.length s) s = s.
Proof. induction s as [|c s IH]; [reflexivity | simpl; rewrite IH; reflexivity]. Qed.

Lemma index_for_location_after : forall d a,
  index_for_location d (String ">" a)
  = match index_of a d with
    | Some i => if List.length d <=? i then Ok None else Ok (Some (S i))
    | None => Exc ValueError
    end.
Proof.
  intros d a; unfold index_for_location, index, drop; simpl.
  replace (String.prefix "" a) with true by (destruct a; reflexivity).
  rewrite Nat.sub_0_r, substring_all.
  destruct (index_of a d); reflexivity.
Qed.

Lemma add_begin : forall d key, add d key "_begin" = Ok (key :: remove_first key d).
Proof.
  intros d key; unfold add, index_for_location; simpl.
  f_equal; unfold insert.
  destruct (index_of key d) eqn:E; [reflexivity|].
  rewrite remove_first_notin; [reflexivity|].
  intro H; destruct (split_first key d H) as (pre & post & -> & Hp).
  rewrite index_of_split in E by exact Hp; discriminate.
Qed.

Lemma add_after : forall pre a post key,
  ~ In a pre -> ~ In key (pre ++ a :: post) ->
  add (pre ++ a :: post) key (String ">" a) = Ok (pre ++ a :: key :: post).
Proof.
  intros pre a post key Hp Hk; unfold add.
  rewrite index_for_location_after, index_of_split by exact Hp.
  rewrite length_app; simpl.
  replace (List.length pre + S (List.length post) <=? List.length pre) with false
    by (symmetry; apply Nat.leb_gt; lia).
  f_equal; unfold insert; rewrite index_of_none by exact Hk.
  rewrite firstn_app, skipn_app, firstn_all2 by lia.
  replace (S (List.length pre) - List.length pre) with 1 by lia.
  rewrite skipn_all2 by lia; simpl; rewrite <- app_assoc; reflexivity.
Qed.

Lemma add_after_missing : forall d a key,
  ~ In a d -> add d key (String ">" a) = Exc ValueError.
Proof.
  intros d a key H; unfold add; rewrite index_for_location_after, index_of_none by exact H.
  reflexivity.
Qed.

Lemma In_insert1 : forall (A C : list string) a k x,
  In x (A ++ a :: k :: C) -> x = k \/ In x (A ++ a :: C).
Proof. intros A C a k x; rewrite !in_app_iff; simpl; intuition. Qed.

Lemma In_prefix : forall (A C : list string) b x,
  In x (A ++ [b]) -> In x (A ++ b :: C).
Proof. intros A C b x; rewrite !in_app_iff; simpl; intuition. Qed.

Lemma In_insert_after : forall (A C : list string) b l x,
  In x ((A ++ [b]) ++ l :: C) -> x = l \/ In x (A ++ b :: C).
Proof. intros A C b l x; rewrite !in_app_iff; simpl; intuition. Qed.

Lemma In_insert2 : forall (A C : list string) b l1 l2 x,
  In x ((A ++ [b]) ++ l1 :: l2 :: C) -> x = l1 \/ x = l2 \/ In x (A ++ b :: C).
Proof. intros A C b l1 l2 x; rewrite !in_app_iff; simpl; intuition. Qed.

Ltac nodup_lit := repeat constructor; simpl; intuition discriminate.

(** [extendMarkdown] on any tables with unique keys that hold every key it
    deletes (and the anchors [backtick] and [hr]) succeeds; the hanging-list
    preprocessor runs first and [reference] is gone; the gravatar pattern
    is the first inline pattern, [link] comes right after [backtick] and
    [autolink] right after [link], and the other deleted inline patterns are
    gone; the list block matcher comes right after [hr] and the deleted
    block processors are gone. *)
Theorem extendMarkdown_wiring :
  forall md : MdTables,
    NoDup (preprocessors md) -> NoDup (inlinePatterns md) -> NoDup (blockprocessors md) ->
    In "reference" (preprocessors md) ->
    (forall k, In k ["image_link"; "image_reference"; "automail"; "autolink"; "link";
                     "reference"; "short_reference"; "escape"; "backtick"] ->
               In k (inlinePatterns md)) ->
    (forall k, In k ["hashheader"; "setextheader"; "olist"; "ulist"; "hr"] ->
               In k (blockprocessors md)) ->
    exists md',
      extendMarkdown md = Ok md'
      /\ preprocessors md'
         = "hanging_ulists" :: remove_first "hanging_ulists"
                                 (remove_first "reference" (preprocessors md))
      /\ ~ In "reference" (preprocessors md')
      /\ (exists pre post,
            inlinePatterns md' = "gravatar" :: pre ++ ["backtick"; "link"; "autolink"] ++ post)
      /\ (forall k, In k ["image_link"; "image_reference"; "automail"; "reference";
                          "short_reference"; "escape"] -> ~ In k (inlinePatterns md'))
      /\ (exists pre post, blockprocessors md' = pre ++ ["hr"; "ulist"] ++ post)
      /\ (forall k, In k ["hashheader"; "setextheader"; "olist"] ->
                    ~ In k (blockprocessors md')).
Proof.
  intros [P I B] HP HI HB Hr Hi Hb; cbn [preprocessors inlinePatterns blockprocessors] in *.
  unfold extendMarkdown; cbn [preprocessors inlinePatterns blockprocessors].
  rewrite del_ok by exact Hr; cbn [bind].
  destruct (del_all_ok ["image_link"; "image_reference"; "automail"; "autolink"; "link";
                        "reference"; "short_reference"; "escape"] I HI)
    as (I1 & EI & HI1 & XI).
  { nodup_lit. }
  { intros k Hk; apply Hi; simpl in Hk |- *; intuition. }
  rewrite EI; cbn [bind].
  unfold extend_blockprocessors.
  destruct (del_all_ok ["hashheader"; "setextheader"; "olist"; "ulist"] B HB)
    as (B1 & EB & HB1 & XB).
  { nodup_lit. }
  { intros k Hk; apply Hb; simpl in Hk |- *; intuition. }
  rewrite EB; cbn [bind].
  (* the block table *)
  assert (Hhr : In "hr" B1).
  { apply XB; split; [apply Hb; simpl; intuition | simpl; intuition discriminate]. }
  destruct (split_first "hr" B1 Hhr) as (bpre & bpost & EB1 & Hbp).
  assert (Hul : ~ In "ulist" B1) by (rewrite XB; simpl; intuition).
  rewrite EB1 in Hul |- *.
  rewrite add_after by assumption; cbn [bind].
  (* the inline table *)
  rewrite add_begin; cbn [bind].
  set (I2 := "gravatar" :: remove_first "gravatar" I1).
  assert (XI2 : forall x, In x I2 -> x = "gravatar" \/ In x I1).
  { intros x [<-|Hx]; [left; reflexivity | right; eapply In_remove_first; exact Hx]. }
  assert (Hbt : In "backtick" (remove_first "gravatar" I1)).
  { apply In_remove_first_neq; [discriminate|].
    apply XI; split; [apply Hi; simpl; intuition | simpl; intuition discriminate]. }
  destruct (split_first "backtick" _ Hbt) as (ipre & ipost & EI2 & Hip).
  assert (Hlk : ~ In "link" I2).
  { intro H; destruct (XI2 _ H) as [E|E]; [discriminate|].
    apply XI in E; destruct E as [_ E]; apply E; simpl; intuition. }
  assert (Hal : ~ In "autolink" I2).
  { intro H; destruct (XI2 _ H) as [E|E]; [discriminate|].
    apply XI in E; destruct E as [_ E]; apply E; simpl; intuition. }
  unfold I2 in Hlk, Hal; rewrite EI2 in Hlk, Hal.
  assert (E2 : I2 = ("gravatar" :: ipre) ++ "backtick" :: ipost)
    by (unfold I2; rewrite EI2; reflexivity).
  rewrite E2, add_after; cbn [bind].
  2: { intros [E|E]; [discriminate | contradiction]. }
  2: { exact Hlk. }
  replace (("gravatar" :: ipre) ++ "backtick" :: "link" :: ipost)
    with (("gravatar" :: ipre ++ ["backtick"]) ++ "link" :: ipost)
    by (simpl; rewrite <- app_assoc; reflexivity).
  rewrite add_after; cbn [bind].
  2: { intro E; apply Hlk; apply (In_prefix ("gravatar" :: ipre) ipost); exact E. }
  2: { intro E; apply (In_insert_after ("gravatar" :: ipre) ipost) in E; destruct E as [E|E];
       [discriminate | exact (Hal E)]. }
  (* the preprocessors *)
  rewrite add_begin; cbn [bind].
  eexists; split; [reflexivity|]; cbn [preprocessors inlinePatterns blockprocessors].
  split; [reflexivity|].
  split.
  { intros [E|E]; [discriminate|].
    apply In_remove_first in E; exact (notin_remove_first _ _ HP E). }
  split.
  { exists ipre, ipost; simpl; rewrite <- app_assoc; reflexivity. }
  split.
  { intros k Hk E.
    apply (In_insert2 ("gravatar" :: ipre) ipost) in E.
    destruct E as [E|[E|E]]; [subst k; simpl in Hk; intuition discriminate
                             |subst k; simpl in Hk; intuition discriminate|].
    rewrite <- E2 in E; destruct (XI2 _ E) as [E1|E1];
      [subst k; simpl in Hk; intuition discriminate|].
    apply XI in E1; destruct E1 as [_ E1]; apply E1; simpl in Hk |- *; intuition. }
  split.
  { exists bpre, bpost; reflexivity. }
  intros k Hk E.
  apply In_insert1 in E; destruct E as [E|E]; [subst k; simpl in Hk; intuition discriminate|].
  rewrite <- EB1 in E; apply XB in E; destruct E as [_ E]; apply E; simpl in Hk |- *; intuition.
Qed.


Lemma forallb_false_ex : forall (A : Type) (f : A -> bool) l,
  forallb f l = false -> exists x, In x l /\ f x = false.
Proof.
  intros A f; induction l as [|a l IH]; simpl; [discriminate|].
  destruct (f a) eqn:E; simpl.
  - intro H; destruct (IH H) as (x & Hx & Fx); exists x; split; [right|]; assumption.
  - intros _; exists a; split; [left; reflexivity | exact E].
Qed.

Lemma del_all_some : forall ks d,
  NoDup ks -> (forall k, In k ks -> In k d) ->
  exists d', del_all d ks = Ok d' /\ (forall x, In x d -> ~ In x ks -> In x d').
Proof.
  induction ks as [|k ks IH]; intros d Hks Hin.
  { exists d; split; [reflexivity | tauto]. }
  inversion Hks as [|? ? Hk Hks']; subst.
  cbn [del_all]; rewrite del_ok by (apply Hin; left; reflexivity); cbn [bind].
  destruct (IH (remove_first k d)) as (d' & E & K); [exact Hks'| |].
  { intros x Hx; apply In_remove_first_neq; [intros ->; contradiction|].
    apply Hin; right; exact Hx. }
  exists d'; split; [exact E|]; intros x Hx Hn; apply K.
  - apply In_remove_first_neq; [intros ->; apply Hn; left; reflexivity | exact Hx].
  - intro; apply Hn; right; assumption.
Qed.

Lemma del_all_fail : forall ks d,
  (exists k, In k ks /\ ~ In k d) -> exists e, del_all d ks = Exc e.
Proof.
  induction ks as [|k ks IH]; intros d (k0 & Hk0 & Hn); [destruct Hk0|].
  cbn [del_all]; destruct (in_dec string_dec k d) as [Hk|Hk].
  - rewrite del_ok by exact Hk; cbn [bind]; apply IH.
    destruct Hk0 as [->|Hk0]; [contradiction|].
    exists k0; split; [exact Hk0|]; intro E; apply Hn; eapply In_remove_first; exact E.
  - rewrite del_missing by exact Hk; cbn [bind]; eexists; reflexivity.
Qed.

Lemma del_all_sub : forall ks d d', del_all d ks = Ok d' -> forall x, In x d' -> In x d.
Proof.
  induction ks as [|k ks IH]; intros d d'; cbn [del_all].
  - intro E; injection E as <-; tauto.
  - unfold bind; destruct (del d k) as [d1|e] eqn:E; [|discriminate].
    unfold del in E; destruct (mem k d); [injection E as <-|discriminate].
    intros H x Hx; eapply In_remove_first; eapply IH; [exact H | exact Hx].
Qed.

Lemma In_insert : forall d i key x, In x (insert d i key) <-> x = key \/ In x d.
Proof.
  intros d i key x.
  assert (Hfs : forall n l, In x (firstn n l) \/ In x (skipn n l) <-> In x l)
    by (intros n l; rewrite <- in_app_iff, firstn_skipn; tauto).
  unfold insert; destruct (index_of key d); rewrite in_app_iff; simpl.
  - set (m := if _ <? i then i - 1 else i).
    pose proof (Hfs m (remove_first key d)) as HR.
    split.
    + intros [H|[H|H]].
      * right; apply (In_remove_first key); apply HR; left; exact H.
      * left; symmetry; exact H.
      * right; apply (In_remove_first key); apply HR; right; exact H.
    + intros [->|H]; [right; left; reflexivity|].
      destruct (String.eqb_spec x key) as [->|Hne]; [right; left; reflexivity|].
      pose proof (In_remove_first_neq key x d Hne H) as H'.
      apply HR in H' as [H'|H']; [left | right; right]; exact H'.
  - pose proof (Hfs i d) as HR.
    split.
    + intros [H|[H|H]]; [right; apply HR; left; exact H | left; symmetry; exact H
                        | right; apply HR; right; exact H].
    + intros [->|H]; [right; left; reflexivity|].
      apply HR in H as [H|H]; [left | right; right]; exact H.
Qed.

Lemma add_after_ok : forall d a key,
  In a d -> exists d', add d key (String ">" a) = Ok d' /\ (forall x, In x d' <-> x = key \/ In x d).
Proof.
  intros d a key H; unfold add; rewrite index_for_location_after.
  destruct (split_first a d H) as (pre & post & Ed & Hp).
  replace (index_of a d) with (Some (List.length pre))
    by (rewrite Ed; symmetry; apply index_of_split; exact Hp).
  destruct (_ <=? _).
  - destruct (mem key d) eqn:Em; eexists; split; try reflexivity.
    + apply mem_In in Em; intro x; split; [tauto|]; intros [->|Hx]; assumption.
    + intro x; rewrite in_app_iff; simpl; intuition.
  - eexists; split; [reflexivity|]; apply In_insert.
Qed.

Lemma extendMarkdown_ok : forall md : MdTables,
  In "reference" (preprocessors md) ->
  (forall k, In k ["image_link"; "image_reference"; "automail"; "autolink"; "link";
                   "reference"; "short_reference"; "escape"; "backtick"] ->
             In k (inlinePatterns md)) ->
  (forall k, In k ["hashheader"; "setextheader"; "olist"; "ulist"; "hr"] ->
             In k (blockprocessors md)) ->
  exists md', extendMarkdown md = Ok md'.
Proof.
  intros [P I B] Hr Hi Hb; cbn [preprocessors inlinePatterns blockprocessors] in *.
  unfold extendMarkdown; cbn [preprocessors inlinePatterns blockprocessors].
  rewrite del_ok by exact Hr; cbn [bind].
  destruct (del_all_some ["image_link"; "image_reference"; "automail"; "autolink"; "link";
                          "reference"; "short_reference"; "escape"] I) as (I1 & EI & KI).
  { nodup_lit. }
  { intros k Hk; apply Hi; simpl in Hk |- *; intuition. }
  rewrite EI; cbn [bind]; unfold extend_blockprocessors.
  destruct (del_all_some ["hashheader"; "setextheader"; "olist"; "ulist"] B) as (B1 & EB & KB).
  { nodup_lit. }
  { intros k Hk; apply Hb; simpl in Hk |- *; intuition. }
  rewrite EB; cbn [bind].
  destruct (add_after_ok B1 "hr" "ulist") as (B2 & EB2 & _).
  { apply KB; [apply Hb; simpl; tauto | simpl; intuition discriminate]. }
  rewrite EB2; cbn [bind]; rewrite add_begin; cbn [bind].
  destruct (add_after_ok ("gravatar" :: remove_first "gravatar" I1) "backtick" "link")
    as (I3 & EI3 & XI3).
  { right; apply In_remove_first_neq; [discriminate|].
    apply KI; [apply Hi; simpl; tauto | simpl; intuition discriminate]. }
  rewrite EI3; cbn [bind].
  destruct (add_after_ok I3 "link" "autolink") as (I4 & EI4 & _).
  { apply XI3; left; reflexivity. }
  rewrite EI4; cbn [bind]; rewrite add_begin; cbn [bind].
  eexists; reflexivity.
Qed.


(** [extendMarkdown] raises exactly when one of the keys it works on is
    missing: ["reference"] from the preprocessors, one of the inline
    patterns it deletes or the [backtick] pattern it inserts [link] after,
    or one of the block processors it deletes or the [hr] processor it
    inserts [ulist] after. No other input makes it raise, whatever the
    order of the tables or duplicates in them. *)
Theorem extendMarkdown_fails_iff_key_missing :
  forall md : MdTables,
    (exists e, extendMarkdown md = Exc e)
    <-> (~ In "reference" (preprocessors md)
         \/ (exists k, In k ["image_link"; "image_reference"; "automail"; "autolink"; "link";
                             "reference"; "short_reference"; "escape"; "backtick"]
                       /\ ~ In k (inlinePatterns md))
         \/ (exists k, In k ["hashheader"; "setextheader"; "olist"; "ulist"; "hr"]
                       /\ ~ In k (blockprocessors md))).
Proof.
  intros md; split.
  - intros [e He].
    destruct (in_dec string_dec "reference" (preprocessors md)) as [Hr|Hr];
      [right | left; exact Hr].
    destruct (forallb (fun k => mem k (inlinePatterns md))
                ["image_link"; "image_reference"; "automail"; "autolink"; "link";
                 "reference"; "short_reference"; "escape"; "backtick"]) eqn:FI.
    + destruct (forallb (fun k => mem k (blockprocessors md))
                  ["hashheader"; "setextheader"; "olist"; "ulist"; "hr"]) eqn:FB.
      * exfalso; rewrite forallb_forall in FI, FB.
        destruct (extendMarkdown_ok md Hr) as [md' E].
        { intros k Hk; apply mem_In, FI, Hk. }
        { intros k Hk; apply mem_In, FB, Hk. }
        rewrite E in He; discriminate.
      * right; apply forallb_false_ex in FB as (k & Hk & Hm).
        exists k; split; [exact Hk|]; intro H; apply mem_In in H; congruence.
    + left; apply forallb_false_ex in FI as (k & Hk & Hm).
      exists k; split; [exact Hk|]; intro H; apply mem_In in H; congruence.
  - destruct md as [P I B]; cbn [preprocessors inlinePatterns blockprocessors].
    unfold extendMarkdown; cbn [preprocessors inlinePatterns blockprocessors].
    intro Hmiss.
    destruct (in_dec string_dec "reference" P) as [Hr|Hr].
    2: { rewrite del_missing by exact Hr; cbn [bind]; eexists; reflexivity. }
    rewrite del_ok by exact Hr; cbn [bind].
    destruct Hmiss as [Hn|[(k & Hk & Hn)|(k & Hk & Hn)]]; [contradiction| |].
    + destruct (String.eqb_spec k "backtick") as [->|Hne].
      * destruct (del_all I _) as [I1|e] eqn:EI; cbn [bind]; [|eexists; reflexivity].
        unfold extend_blockprocessors.
        destruct (del_all B _) as [B1|e]; cbn [bind]; [|eexists; reflexivity].
        destruct (add B1 "ulist" ">hr") as [B2|e]; cbn [bind]; [|eexists; reflexivity].
        rewrite add_begin; cbn [bind].
        rewrite add_after_missing; [cbn [bind]; eexists; reflexivity|].
        intros [E|E]; [discriminate|].
        apply In_remove_first, (del_all_sub _ _ _ EI) in E; contradiction.
      * destruct (del_all_fail ["image_link"; "image_reference"; "automail"; "autolink"; "link";
                                "reference"; "short_reference"; "escape"] I) as [e He].
        { exists k; split; [|exact Hn]; simpl in Hk |- *; intuition congruence. }
        rewrite He; cbn [bind]; eexists; reflexivity.
    + destruct (del_all I _) as [I1|e]; cbn [bind]; [|eexists; reflexivity].
      unfold extend_blockprocessors.
      destruct (String.eqb_spec k "hr") as [->|Hne].
      * destruct (del_all B _) as [B1|e] eqn:EB; cbn [bind]; [|eexists; reflexivity].
        rewrite add_after_missing; [cbn [bind]; eexists; reflexivity|].
        intro E; apply (del_all_sub _ _ _ EB) in E; contradiction.
      * destruct (del_all_fail ["hashheader"; "setextheader"; "olist"; "ulist"] B) as [e He].
        { exists k; split; [|exact Hn]; simpl in Hk |- *; intuition congruence. }
        rewrite He; cbn [bind]; eexists; reflexivity.
Qed.

End WiringFacts.

(** ** What a non-empty sanitized URL looks like *)
Module SanitizeShape.
Import Py UrlParse Bugdown SanitizeTermination.
Local Open Scope nat_scope.




















Lemma mailto_news_no_netloc : forall sch,
  (sch = "mailto"%string \/ sch = "news"%string) -> mem sch uses_netloc = false.
Proof. intros sch [-> | ->]; reflexivity. Qed.


End SanitizeShape.

(** ** The URLs [sanitize_url] lets through, and the hrefs of links *)
Module LinkHrefFacts.
Import Py UrlParse Bugdown AnchorFacts SanitizeShape.








End LinkHrefFacts.

(** ** What the autolink and gravatar patterns capture, on any text *)
Module PatternFacts.
Import PyChar Regex Patterns Bugdown BulletFacts.
Local Open Scope nat_scope.
Local Open Scope list_scope.

(** the previous character after consuming [pre] *)
Definition last_of (pv : option ascii) (pre : list ascii) : option ascii :=
  fold_left (fun _ c => Some c) pre pv.

Lemma mt_star : forall gr r i pv s g k,
  mt (RStar gr r) i pv s g k = star_loop gr r k (S (length s)) i pv s g.
Proof. reflexivity. Qed.

Lemma star_loop_S : forall gr r k n i pv s g,
  star_loop gr r k (S n) i pv s g =
  if gr then
    match mt r i pv s g (fun i' pv' s' g' =>
                           if i <? i' then star_loop gr r k n i' pv' s' g' else None) with
    | Some x => Some x
    | None => k i pv s g
    end
  else
    match k i pv s g with
    | Some x => Some x
    | None => mt r i pv s g (fun i' pv' s' g' =>
                               if i <? i' then star_loop gr r k n i' pv' s' g' else None)
    end.
Proof. reflexivity. Qed.

(** a star over a character class consumes a run of that class *)
Lemma star_class_inv : forall gr p k n i pv s g x,
  star_loop gr (RClass p) k n i pv s g = Some x ->
  exists pre s', s = pre ++ s' /\ forallb p pre = true
                 /\ k (i + length pre) (last_of pv pre) s' g = Some x.
Proof.
  intros gr p k; induction n as [|n IH]; intros i pv s g x H.
  - exists [], s; split; [reflexivity|]; split; [reflexivity|].
    rewrite Nat.add_0_r; exact H.
  - rewrite star_loop_S in H.
    assert (Hstep : forall y,
      mt (RClass p) i pv s g (fun i' pv' s' g' =>
          if i <? i' then star_loop gr (RClass p) k n i' pv' s' g' else None) = Some y ->
      exists pre s', s = pre ++ s' /\ forallb p pre = true
                     /\ k (i + length pre) (last_of pv pre) s' g = Some y).
    { intros y Hy; apply mt_class_inv in Hy as (c & s1 & -> & Hc & Hy).
      replace (i <? S i) with true in Hy by (symmetry; apply Nat.ltb_lt; lia).
      apply IH in Hy as (pre & s' & -> & Hp & Hk).
      exists (c :: pre), s'; split; [reflexivity|]; split; [simpl; rewrite Hc; exact Hp|].
      replace (i + length (c :: pre)) with (S i + length pre) by (simpl; lia).
      exact Hk. }
    destruct gr.
    + destruct (mt (RClass p) i pv s g _) as [y|] eqn:E.
      * injection H as <-; exact (Hstep y eq_refl).
      * exists [], s; split; [reflexivity|]; split; [reflexivity|].
        rewrite Nat.add_0_r; exact H.
    + destruct (k i pv s g) as [y|] eqn:E.
      * injection H as <-; exists [], s; split; [reflexivity|]; split; [reflexivity|].
        rewrite Nat.add_0_r; exact E.
      * apply Hstep; exact H.
Qed.

Lemma mt_star_class_inv : forall gr p i pv s g k x,
  mt (RStar gr (RClass p)) i pv s g k = Some x ->
  exists pre s', s = pre ++ s' /\ forallb p pre = true
                 /\ k (i + length pre) (last_of pv pre) s' g = Some x.
Proof. intros; rewrite mt_star in H; eapply star_class_inv; exact H. Qed.

Lemma lit_inv : forall l i pv s g k x,
  mt (lit l) i pv s g k = Some x ->
  exists pv' s', s = l ++ s' /\ k (i + length l) pv' s' g = Some x.
Proof.
  induction l as [|a l IH]; intros i pv s g k x H.
  - exists pv, s; split; [reflexivity|]; rewrite Nat.add_0_r; exact H.
  - cbn [lit] in H; rewrite mt_cat in H; unfold chr in H.
    apply mt_class_inv in H as (c & s1 & -> & Hc & H); apply is_char_true in Hc; subst c.
    apply IH in H as (pv' & s' & -> & H).
    exists pv', s'; split; [reflexivity|].
    replace (i + length (a :: l)) with (S i + length l) by (simpl; lia); exact H.
Qed.

Lemma opt_chr_inv : forall a i pv s g k x,
  mt (opt (chr a)) i pv s g k = Some x ->
  exists o pv' s', s = o ++ s' /\ (o = [] \/ o = [a]) /\ k (i + length o) pv' s' g = Some x.
Proof.
  intros a i pv s g k x H; unfold opt in H; apply mt_alt_inv in H as [H|H].
  - unfold chr in H; apply mt_class_inv in H as (c & s1 & -> & Hc & H).
    apply is_char_true in Hc; subst c.
    exists [a], (Some a), s1; split; [reflexivity|]; split; [right; reflexivity|].
    rewrite Nat.add_1_r; exact H.
  - exists [], pv, s; split; [reflexivity|]; split; [left; reflexivity|].
    rewrite Nat.add_0_r; exact H.
Qed.

Lemma wordb_inv : forall i pv s g k x,
  mt RWordB i pv s g k = Some x ->
  xorb (word_at pv) (word_at (head_opt s)) = true /\ k i pv s g = Some x.
Proof.
  intros i pv s g k x H; simpl in H.
  destruct (negb _ && xorb (word_at pv) (word_at (head_opt s))) eqn:E; [|discriminate].
  apply andb_prop in E as [_ E]; split; assumption.
Qed.

Lemma look_inv : forall r i pv s g k x,
  mt (RLook r) i pv s g k = Some x ->
  exists g', mt r i pv s g (fun _ _ _ g' => Some g') = Some g' /\ k i pv s g' = Some x.
Proof.
  intros r i pv s g k x H; simpl in H.
  destruct (mt r i pv s g (fun _ _ _ g' => Some g')) as [g'|]; [|discriminate].
  exists g'; split; [reflexivity | exact H].
Qed.

Lemma eol_done_inv : forall i pv s g x,
  mt (REol false) i pv s g done = Some x -> x = g.
Proof.
  intros i pv [|c s] g x H; simpl in H; [injection H as <-; reflexivity|].
  destruct (_ && _); [injection H as <-; reflexivity | discriminate].
Qed.

(** the tail [(.*?)$] that [Pattern] appends *)
Lemma tail_inv : forall n i pv s g x,
  mt (RCat (RGroup n (RStar false any_all)) (REol false)) i pv s g done = Some x ->
  exists j, x = (n, (i, j)) :: g.
Proof.
  intros n i pv s g x H.
  rewrite mt_cat, mt_group in H; unfold any_all in H.
  apply mt_star_class_inv in H as (pre & s' & -> & _ & H).
  apply eol_done_inv in H; eexists; exact H.
Qed.

Lemma last_of_inv : forall pre,
  pre = [] \/ exists b c, pre = b ++ [c] /\ last_of None pre = Some c.
Proof.
  intro pre; destruct pre as [|a l] using rev_ind; [left; reflexivity|].
  right; exists l, a; split; [reflexivity|].
  unfold last_of; rewrite fold_left_app; reflexivity.
Qed.

Lemma substring_of_list : forall (a b c : list ascii) text,
  list_ascii_of_string text = a ++ b ++ c ->
  substring (length a) (length b) text = string_of_list_ascii b.
Proof.
  induction a as [|x a IH]; intros b c text H.
  - simpl in H |- *; revert text H; induction b as [|y b IHb]; intros text H; simpl in *.
    + destruct text; reflexivity.
    + destruct text as [|t text]; [discriminate|].
      injection H as -> H; simpl; rewrite (IHb text H); reflexivity.
  - destruct text as [|t text]; [discriminate|].
    simpl in H; injection H as -> H; simpl; apply IH with c; exact H.
Qed.

(** what the lookahead [(?=[^\w/]*(\s|\Z))] checks *)
Lemma link_look_inv : forall i pv s g g',
  mt (RCat (RStar true (RClass (fun c => negb (is_word c || is_char "/" c))))
           (RGroup 3 (RAlt (RClass is_space) REndZ))) i pv s g (fun _ _ _ g' => Some g')
  = Some g' ->
  (exists p t, s = p ++ t /\ forallb (fun c => negb (is_word c || is_char "/" c)) p = true
               /\ (t = [] \/ exists c t', t = c :: t' /\ is_space c = true))
  /\ exists sp, g' = (3, sp) :: g.
Proof.
  intros i pv s g g' H.
  rewrite mt_cat in H; apply mt_star_class_inv in H as (p & t & -> & Hp & H).
  rewrite mt_group in H; apply mt_alt_inv in H as [H|H].
  - apply mt_class_inv in H as (c & t' & -> & Hc & H).
    injection H as <-; split; [|eexists; reflexivity].
    exists p, (c :: t'); split; [reflexivity|]; split; [exact Hp|].
    right; exists c, t'; auto.
  - destruct t as [|c t']; simpl in H; [|discriminate].
    injection H as <-; split; [|eexists; reflexivity].
    exists p, []; split; [reflexivity|]; split; [exact Hp | left; reflexivity].
Qed.

Lemma autolink_url_inv : forall text url,
  autolink_url text = Some url ->
  exists before u after,
    list_ascii_of_string text = before ++ u ++ after
    /\ url = string_of_list_ascii u
    /\ (exists rest, rest <> [] /\ (u = list_ascii_of_string "http://" ++ rest
                                   \/ u = list_ascii_of_string "https://" ++ rest)
                     /\ forallb (fun c => negb (is_space c)) rest = true)
    /\ (before = [] \/ exists b c, before = b ++ [c] /\ is_word c = false)
    /\ (exists punct tail, after = punct ++ tail
        /\ forallb (fun c => negb (is_word c || is_char "/" c)) punct = true
        /\ (tail = [] \/ exists c t, tail = c :: t /\ is_space c = true)).
Proof.
  intros text url; unfold autolink_url, re_match.
  destruct (mt autolink_re 0 None (list_ascii_of_string text) [] done) as [x|] eqn:H;
    [|discriminate].
  intro Hg.
  unfold autolink_re, pattern_compile in H; cbn [cats] in H.
  rewrite mt_cat in H; apply mt_bol_inv in H; cbv beta in H.
  rewrite mt_cat, mt_group in H; unfold any_all in H.
  apply mt_star_class_inv in H as (pre & s1 & Es & _ & H); cbv beta in H.
  rewrite mt_cat in H; unfold link_regex in H; cbn [cats] in H.
  rewrite mt_cat in H; apply wordb_inv in H as [Hwb H]; cbv beta in H.
  rewrite mt_cat, mt_group in H.
  rewrite mt_cat in H; apply lit_inv in H as (pv2 & s2 & -> & H); cbv beta in H.
  rewrite mt_cat in H; apply opt_chr_inv in H as (o & pv3 & s3 & -> & Ho & H); cbv beta in H.
  rewrite mt_cat in H; apply lit_inv in H as (pv4 & s4 & -> & H); cbv beta in H.
  unfold plus in H; rewrite mt_cat in H.
  apply mt_class_inv in H as (c & s5 & -> & Hc & H); cbv beta in H.
  apply mt_star_class_inv in H as (pre2 & s6 & -> & Hpre2 & H); cbv beta in H.
  apply look_inv in H as (g' & Hl & H).
  apply link_look_inv in Hl as [(p & t & -> & Hp & Ht) (sp & ->)].
  cbv beta in H; apply tail_inv in H as (j & ->).
  unfold group in Hg; cbn [lookup_group Nat.eqb] in Hg; injection Hg as <-.
  set (u := list_ascii_of_string "http" ++ o ++ list_ascii_of_string "://" ++ c :: pre2).
  exists pre, u, (p ++ t).
  assert (Et : list_ascii_of_string text = pre ++ u ++ p ++ t)
    by (rewrite Es; unfold u; rewrite <- !app_assoc; reflexivity).
  split; [exact Et|].
  split.
  { rewrite <- (substring_of_list pre u (p ++ t) text Et); f_equal.
    unfold u; rewrite !length_app; destruct Ho as [-> | ->];
      cbn [length list_ascii_of_string]; destruct (length pre); lia. }
  split.
  { exists (c :: pre2); split; [discriminate|]; split.
    - destruct Ho as [-> | ->]; [left | right]; reflexivity.
    - simpl; rewrite Hc, Hpre2; reflexivity. }
  split.
  { destruct (last_of_inv pre) as [E|(b & c' & -> & El)]; [left; exact E|].
    right; exists b, c'; split; [reflexivity|].
    rewrite El in Hwb; simpl in Hwb.
    destruct (is_word c'); [discriminate | reflexivity]. }
  exists p, t; split; [reflexivity|]; split; [exact Hp | exact Ht].
Qed.

Lemma gravatar_email_inv : forall text email,
  gravatar_email text = Some email ->
  exists before after,
    list_ascii_of_string text
    = before ++ list_ascii_of_string "!gravatar(" ++ list_ascii_of_string email
      ++ ")"%char :: after
    /\ forallb (fun c => negb (is_char ")" c)) (list_ascii_of_string email) = true.
Proof.
  intros text email; unfold gravatar_email, re_match.
  destruct (mt gravatar_re 0 None (list_ascii_of_string text) [] done) as [x|] eqn:H;
    [|discriminate].
  intro Hg.
  unfold gravatar_re, pattern_compile in H; cbn [cats] in H.
  rewrite mt_cat in H; apply mt_bol_inv in H; cbv beta in H.
  rewrite mt_cat, mt_group in H; unfold any_all in H.
  apply mt_star_class_inv in H as (pre & s1 & Es & _ & H); cbv beta in H.
  rewrite mt_cat in H; unfold gravatar_regex in H; cbn [cats] in H.
  rewrite mt_cat in H; apply lit_inv in H as (pv2 & s2 & -> & H); cbv beta in H.
  rewrite mt_cat, mt_group in H.
  apply mt_star_class_inv in H as (pre2 & s3 & -> & Hpre2 & H); cbv beta in H.
  unfold chr in H; apply mt_class_inv in H as (c & s4 & -> & Hc & H); cbv beta in H.
  apply is_char_true in Hc; subst c.
  apply tail_inv in H as (j & ->).
  unfold group in Hg; cbn [lookup_group Nat.eqb] in Hg; injection Hg as <-.
  assert (Et : list_ascii_of_string text
               = (pre ++ list_ascii_of_string "!gravatar(") ++ pre2 ++ ")"%char :: s4)
    by (rewrite Es, <- app_assoc; reflexivity).
  assert (Ee : substring (length (pre ++ list_ascii_of_string "!gravatar(")) (length pre2) text
               = string_of_list_ascii pre2)
    by exact (substring_of_list _ pre2 _ text Et).
  rewrite length_app in Ee; cbn [length list_ascii_of_string] in Ee.
  match goal with
  | |- context [substring ?i (?a - ?b) text] =>
      replace (a - b) with (length pre2) by lia;
      replace i with (length pre + 10) by lia
  end.
  rewrite Ee, list_ascii_of_string_of_list_ascii.
  exists pre, s4; split; [exact Es | exact Hpre2].
Qed.

(** Whenever the autolink pattern fires on a text, the anchor built for it
    has as [href] and as text a URL that occurs in the text, starts with
    ["http://"] or ["https://"] followed by at least one character, and
    has no whitespace; the character before it, if any, is not a word
    character; and what follows it in the text is a run of characters that
    are neither word characters nor ['/'], then whitespace or the end. *)
Theorem autolink_anchor_url_shape :
  forall (txt : string) (a : Element),
    AutoLink_apply txt = Some a ->
    exists url before after,
      get a "href" = Some url /\ text a = Some url
      /\ list_ascii_of_string txt = before ++ list_ascii_of_string url ++ after
      /\ (exists rest, rest <> []
          /\ (list_ascii_of_string url = list_ascii_of_string "http://" ++ rest
              \/ list_ascii_of_string url = list_ascii_of_string "https://" ++ rest)
          /\ forallb (fun c => negb (is_space c)) rest = true)
      /\ (before = [] \/ exists b c, before = b ++ [c] /\ is_word c = false)
      /\ (exists punct tail, after = punct ++ tail
          /\ forallb (fun c => negb (is_word c || is_char "/" c)) punct = true
          /\ (tail = [] \/ exists c t, tail = c :: t /\ is_space c = true)).
Proof.
  intros txt a; unfold AutoLink_apply.
  destruct (autolink_url txt) as [url|] eqn:E; [|discriminate].
  intro H; injection H as <-.
  destruct (autolink_url_inv txt url E)
    as (before & u & after & Et & -> & Hrest & Hb & Ha).
  assert (Hh : get (AutoLink_handleMatch (string_of_list_ascii u)) "href"
                = Some (string_of_list_ascii u)).
  { unfold AutoLink_handleMatch.
    rewrite AnchorFacts.fixup_link_href, AnchorFacts.set_text_get, AnchorFacts.get_set_eq.
    reflexivity. }
  assert (Htx : text (AutoLink_handleMatch (string_of_list_ascii u))
                = Some (string_of_list_ascii u)).
  { reflexivity. }
  exists (string_of_list_ascii u), before, after.
  rewrite !list_ascii_of_string_of_list_ascii.
  split; [exact Hh|]; split; [exact Htx|]; split; [exact Et|].
  split; [exact Hrest|]; split; [exact Hb | exact Ha].
Qed.

(** Whenever the gravatar pattern fires on a text, the email it passes on
    sits between ["!gravatar("] and the first [")"] after it, so it holds
    no [")"]; the image built for it is an [img] of class
    ["message_body_gravatar img-rounded"] whose source is the gravatar URL
    of that email's hash. *)
Theorem gravatar_image_shape :
  forall (gravatar_hash : string -> string) (txt : string) (img : Element),
    Gravatar_apply gravatar_hash txt = Some img ->
    exists before email after,
      list_ascii_of_string txt
      = before ++ list_ascii_of_string "!gravatar(" ++ list_ascii_of_string email
        ++ ")"%char :: after
      /\ forallb (fun c => negb (is_char ")" c)) (list_ascii_of_string email) = true
      /\ tag img = "img"%string
      /\ get img "class" = Some "message_body_gravatar img-rounded"%string
      /\ get img "src" = Some ("https://secure.gravatar.com/avatar/" ++ gravatar_hash email
                               ++ "?d=identicon&s=30")%string.
Proof.
  intros gh txt img; unfold Gravatar_apply.
  destruct (gravatar_email txt) as [email|] eqn:E; [|discriminate].
  intro H; injection H as <-.
  destruct (gravatar_email_inv txt email E) as (before & after & Et & He).
  exists before, email, after; split; [exact Et|]; split; [exact He|].
  split; [reflexivity|].
  unfold Gravatar_handleMatch, get, set; cbn [attrib Element_new].
  split; [reflexivity|].
  apply AnchorFacts.attr_get_set_eq.
Qed.

End PatternFacts.

(** ** Instances of the theorems with hypotheses *)
Module Witnesses.
Import Py Registry RegistryFacts Convert ConvertFacts.

Lemma ulist_registered_after_hr_witness :
  (fun s => String.eqb s "hr" || String.eqb s "ulist") "hr" = true
  /\ dispatch (fun s => String.eqb s "hr" || String.eqb s "ulist") wired_blockprocessors
     = Some "hr".
Proof.
  split; [reflexivity|].
  destruct (ulist_registered_after_hr (fun s => String.eqb s "hr" || String.eqb s "ulist")
              eq_refl) as (_ & _ & _ & H).
  apply H; reflexivity.
Defined.

Lemma convert_failure_fallback_and_log_witness :
  failing_engine ((fun s : unit => s) (engine unit start_world)) (ustr_of "hi")
    = (Exc (OtherError "RuntimeError"), 0, tt)
  /\ timeout 5 (Exc (OtherError "RuntimeError")) 0 = Exc (OtherError "RuntimeError")
  /\ fst (convert unit (fun s => s) failing_engine (fun _ => []) (fun s => s)
                  (fun _ => false) (ustr_of "hi") start_world)
     = Ok (ustr_of fallback_html).
Proof.
  split; [reflexivity|]; split; [reflexivity|].
  destruct (convert_failure_fallback_and_log unit (fun s => s) failing_engine
              (fun _ => []) (fun s => s) (fun _ => false) (ustr_of "hi") start_world
              (Exc (OtherError "RuntimeError")) 0 tt (OtherError "RuntimeError")
              eq_refl eq_refl) as [H _].
  rewrite H; reflexivity.
Defined.

End Witnesses.

(** ** Instances of the further theorems with hypotheses *)
Module MoreWitnesses.
Import Py Registry Convert Hanging Bugdown.
Local Open Scope list_scope.

Definition ascii_isalnum (c : Z) : bool :=
  (((48 <=? c) && (c <=? 57)) || ((65 <=? c) && (c <=? 90)) || ((97 <=? c) && (c <=? 122)))%Z.

Lemma sanitize_for_log_reveals_only_mask_witness :
  Forall2 (fun a b => if is_word_u ascii_isalnum a
                      then is_word_u ascii_isalnum b = true else b = a)
          (ustr_of "pw: hunter2") (ustr_of "pw: abcdef9")
  /\ _sanitize_for_log (fun s => s) ascii_isalnum (ustr_of "pw: hunter2")
     = _sanitize_for_log (fun s => s) ascii_isalnum (ustr_of "pw: abcdef9").
Proof.
  assert (H : Forall2 (fun a b => if is_word_u ascii_isalnum a
                                  then is_word_u ascii_isalnum b = true else b = a)
                      (ustr_of "pw: hunter2") (ustr_of "pw: abcdef9")).
  { vm_compute; repeat (apply Forall2_cons; [reflexivity|]); apply Forall2_nil. }
  split; [exact H|].
  exact (LogFacts.sanitize_for_log_reveals_only_mask (fun s => s) ascii_isalnum _ _ H).
Defined.

Lemma run_idempotent_witness :
  FENCE_RE_match "" = None /\ li_match "" = false
  /\ run FENCE_RE_match li_match (run FENCE_RE_match li_match ["Intro"; "* a"; "* b"])
     = run FENCE_RE_match li_match ["Intro"; "* a"; "* b"].
Proof.
  split; [vm_compute; reflexivity|]; split; [vm_compute; reflexivity|].
  apply (PreprocessorFacts.run_idempotent FENCE_RE_match li_match
           HangingFacts.FENCE_RE_nonempty); vm_compute; reflexivity.
Defined.

Lemma run_no_bullet_unchanged_witness :
  (forall l, In l ["Intro"; "plain text"] -> li_match l = false)
  /\ run FENCE_RE_match li_match ["Intro"; "plain text"] = ["Intro"; "plain text"].
Proof.
  assert (H : forall l, In l ["Intro"; "plain text"] -> li_match l = false).
  { intros l [<-|[<-|[]]]; vm_compute; reflexivity. }
  split; [exact H|].
  exact (PreprocessorFacts.run_no_bullet_unchanged FENCE_RE_match li_match _
           HangingFacts.FENCE_RE_nonempty H).
Defined.

Definition sample_tables : MdTables :=
  {| preprocessors := ["fenced_code_block"; "html_block"; "reference"];
     inlinePatterns := ["backtick"; "escape"; "reference"; "link"; "image_link";
                        "image_reference"; "short_reference"; "autolink"; "automail";
                        "linebreak"; "html"; "entity"; "not_strong"; "strong_em";
                        "strong"; "emphasis"; "emphasis2"];
     blockprocessors := default_blockprocessors |}.

Lemma extendMarkdown_wiring_witness :
  NoDup (preprocessors sample_tables) /\ NoDup (inlinePatterns sample_tables)
  /\ NoDup (blockprocessors sample_tables)
  /\ In "reference" (preprocessors sample_tables)
  /\ (exists md', extendMarkdown sample_tables = Ok md'
                  /\ ~ In "reference" (preprocessors md')).
Proof.
  assert (H1 : NoDup (preprocessors sample_tables)) by WiringFacts.nodup_lit.
  assert (H2 : NoDup (inlinePatterns sample_tables)) by WiringFacts.nodup_lit.
  assert (H3 : NoDup (blockprocessors sample_tables)) by WiringFacts.nodup_lit.
  assert (H4 : In "reference" (preprocessors sample_tables)) by (simpl; tauto).
  split; [exact H1|]; split; [exact H2|]; split; [exact H3|]; split; [exact H4|].
  destruct (WiringFacts.extendMarkdown_wiring sample_tables H1 H2 H3 H4)
    as (md' & E & _ & Hr & _).
  - intros k Hk; simpl in Hk; simpl; intuition (subst; tauto).
  - intros k Hk; simpl in Hk; simpl; intuition (subst; tauto).
  - exists md'; split; assumption.
Defined.

Lemma autolink_anchor_url_shape_witness :
  AutoLink_apply "see http://x.com/page." = Some (AutoLink_handleMatch "http://x.com/page")
  /\ exists url, get (AutoLink_handleMatch "http://x.com/page") "href" = Some url.
Proof.
  assert (H : AutoLink_apply "see http://x.com/page."
              = Some (AutoLink_handleMatch "http://x.com/page")) by (vm_compute; reflexivity).
  split; [exact H|].
  destruct (PatternFacts.autolink_anchor_url_shape _ _ H) as (url & _ & _ & Hh & _).
  exists url; exact Hh.
Defined.

Lemma gravatar_image_shape_witness :
  Gravatar_apply (fun s => s) "hi !gravatar(a@b.c) x"
    = Some (Gravatar_handleMatch (fun s => s) "a@b.c")
  /\ exists email, get (Gravatar_handleMatch (fun s => s) "a@b.c") "src"
                   = Some ("https://secure.gravatar.com/avatar/" ++ email
                           ++ "?d=identicon&s=30")%string.
Proof.
  assert (H : Gravatar_apply (fun s => s) "hi !gravatar(a@b.c) x"
              = Some (Gravatar_handleMatch (fun s => s) "a@b.c")) by (vm_compute; reflexivity).
  split; [exact H|].
  destruct (PatternFacts.gravatar_image_shape (fun s => s) _ _ H)
    as (before & email & after & _ & _ & _ & _ & Hs).
  exists email; exact Hs.
Defined.

End MoreWitnesses.
